(** * PriceHunter: the search client, the poller, the result deriver,
      the cart and the history / list stores

    Shallow embedding of [src/api/client.ts] and
    [src/screens/HomeScreen.tsx], and of the earlier variant of the screen
    that the repository still carries next to the client.

    Conventions.
    - A JavaScript string is a [string]; each character stands for one
      UTF-16 code unit in the range U+0000..U+00FF (Latin-1), on which
      [trim] and [toLowerCase] are written out exactly.
    - A JavaScript number that holds a price, a quantity or an index is an
      integer of [Z] (an amount in the smallest currency unit): the only
      arithmetic the screen does on them is [+], [-] and [*].
    - A React state cell is a field of a record, a setter is a function on
      that record, and an [async] function is a function of the outcome of
      the calls it awaits.
    - [AsyncStorage] holds one document per key the screen uses; a
      document is the value whose JSON text was written. *)

From stdpp Require Import base list strings sorting gmap.
From Stdlib Require Import ZArith Ascii.

(** ** JavaScript primitives used by the sources *)

Module JS.

(** The value carried by a [throw] or a rejected promise: [err.message]
    may be missing. *)
Record Error := { message : option string }.

Definition new_Error (m : string) : Error := {| message := Some m |}.

Definition code (c : ascii) : N := N_of_ascii c.

(** White space and line terminators of ECMAScript below U+0100. *)
Definition isWhiteSpace (c : ascii) : bool :=
  ((9 <=? code c) && (code c <=? 13) || (code c =? 32) || (code c =? 160))%N.

Fixpoint trimStart (s : string) : string :=
  match s with
  | EmptyString => EmptyString
  | String c s' => if isWhiteSpace c then trimStart s' else s
  end.

Fixpoint trimEnd (s : string) : string :=
  match s with
  | EmptyString => EmptyString
  | String c s' =>
      match trimEnd s' with
      | EmptyString =>
          if isWhiteSpace c then EmptyString else String c EmptyString
      | t => String c t
      end
  end.

(** [s.trim()] *)
Definition trim (s : string) : string := trimEnd (trimStart s).

(** Upper-case letters below U+0100: A..Z and the accented capitals
    U+00C0..U+00DE without the multiplication sign U+00D7. *)
Definition isUpper (c : ascii) : bool :=
  ((65 <=? code c) && (code c <=? 90)
   || (192 <=? code c) && (code c <=? 222) && negb (code c =? 215))%N.

Definition lowerUnit (c : ascii) : ascii :=
  if isUpper c then ascii_of_N (code c + 32) else c.

(** [s.toLowerCase()] *)
Fixpoint toLowerCase (s : string) : string :=
  match s with
  | EmptyString => EmptyString
  | String c s' => String (lowerUnit c) (toLowerCase s')
  end.

(** [s.includes(sub)] *)
Fixpoint includes (s sub : string) : bool :=
  String.prefix sub s
  || match s with
     | EmptyString => false
     | String _ s' => includes s' sub
     end.

(** Truthiness of a string: only the empty string is falsy. *)
Definition truthy (s : string) : bool := negb (String.eqb s EmptyString).

(** [m || d] for an optional string [m]: [undefined] and the empty string
    give the default. *)
Definition or_default (m : option string) (d : string) : string :=
  match m with
  | Some s => if truthy s then s else d
  | None => d
  end.

Section Arrays.
Context {A : Type}.

Fixpoint findIndex_from (p : A -> bool) (l : list A) (i : Z) : Z :=
  match l with
  | [] => (-1)%Z
  | x :: l' => if p x then i else findIndex_from p l' (i + 1)%Z
  end.

(** [l.findIndex(p)]: the first index whose element passes, else -1. *)
Definition findIndex (p : A -> bool) (l : list A) : Z :=
  findIndex_from p l 0%Z.

Fixpoint filter_from (f : A -> Z -> list A -> bool) (self l : list A)
    (i : Z) : list A :=
  match l with
  | [] => []
  | x :: l' =>
      if f x i self then x :: filter_from f self l' (i + 1)%Z
      else filter_from f self l' (i + 1)%Z
  end.

(** [self.filter((item, index, self) => ...)] *)
Definition filter_idx (f : A -> Z -> list A -> bool) (self : list A)
    : list A :=
  filter_from f self self 0%Z.

(** [l.find(p)] *)
Definition find (p : A -> bool) (l : list A) : option A := List.find p l.

(** [l.some(p)] *)
Definition some (p : A -> bool) (l : list A) : bool := existsb p l.

(** [l.slice(0, n)] *)
Definition slice0 (n : nat) (l : list A) : list A := take n l.

Fixpoint sort_insert (cmp : A -> A -> Z) (x : A) (l : list A) : list A :=
  match l with
  | [] => [x]
  | y :: l' =>
      if (cmp x y <=? 0)%Z then x :: l else y :: sort_insert cmp x l'
  end.

(** [l.sort(cmp)]: the sort of the engines is stable, so with a
    comparator that is a total preorder the outcome is the stable
    sorted arrangement, which insertion from the right computes. *)
Definition sort (cmp : A -> A -> Z) (l : list A) : list A :=
  foldr (sort_insert cmp) [] l.
End Arrays.

(** [l.includes(s)] on an array of strings *)
Definition array_includes (l : list string) (s : string) : bool :=
  existsb (String.eqb s) l.

(** A string literal with one code unit above U+007F in the middle. *)
Definition with_unit (before : string) (unit : N) (after : string)
    : string :=
  before +:+ String (ascii_of_N unit) after.

(** Adding a value to a [Set] of strings: a [Set] keeps its values in
    the order in which they were first added. *)
Definition set_add (acc : list string) (x : string) : list string :=
  if array_includes acc x then acc else acc ++ [x].

(** [Array.from(new Set(l))] *)
Definition from_Set (l : list string) : list string :=
  fold_left set_add l [].

(** [s.split(" ")], as its first piece and the pieces after it: the
    array always has a first piece, and empty pieces are kept. *)
Fixpoint split_space (s : string) : string * list string :=
  match s with
  | EmptyString => (EmptyString, [])
  | String c s' =>
      let '(h, t) := split_space s' in
      if (code c =? 32)%N then (EmptyString, h :: t) else (String c h, t)
  end.

End JS.

(** ** The search client: [src/api/client.ts] *)

Module Client.

(** What the client reads of a Fetch [Response]; [json] is the outcome
    of [res.json()], a rejection or the parsed body. *)
Record Response (B : Type) := {
  ok : bool;
  status : Z;
  json : JS.Error + B
}.
Arguments ok {B} _.
Arguments status {B} _.
Arguments json {B} _.

(** The Fetch standard sets [ok] exactly for the statuses 200..299. *)
Definition ok_status (st : Z) : bool := ((200 <=? st) && (st <=? 299))%Z.

Definition from_server {B} (res : Response B) : Prop :=
  ok res = ok_status (status res).

(** A response as the platform builds it from the status line. *)
Definition respond {B} (st : Z) (body : JS.Error + B) : Response B :=
  {| ok := ok_status st; status := st; json := body |}.

(** [await fetch(url)]: the promise rejects (no connection) or resolves. *)
Inductive Fetched (B : Type) :=
| Rejected (e : JS.Error)
| Resolved (res : Response B).
Arguments Rejected {B} _.
Arguments Resolved {B} _.

(** The three parameters of the request URL. *)
Record Request := {
  q : string;
  userCity : string;
  userProvince : string
}.

(** [searchProduct(query, userCity, userProvince)], current version:
    [inl] is the thrown error, [inr] the value returned. *)
Definition searchProduct {B} (fetch : Request -> Fetched B)
    (query userCity userProvince : string) : JS.Error + B :=
  match fetch {| q := query; userCity := userCity;
                 userProvince := userProvince |} with
  | Rejected e => inl e
  | Resolved res =>
      if negb (ok res) then inl (JS.new_Error "Search failed")
      else if (status res =? 429)%Z then
        inl (JS.new_Error "Rate limit exceeded. Try again later.")
      else json res
  end.

(** [searchProduct(query)], the earlier version kept in the same file. *)
Definition searchProduct_v1 {B} (fetch : string -> Fetched B)
    (query : string) : JS.Error + B :=
  match fetch query with
  | Rejected e => inl e
  | Resolved res =>
      if negb (ok res) then inl (JS.new_Error "Search failed")
      else if (status res =? 429)%Z then
        inl (JS.new_Error "Rate limit exceeded. Try again later.")
      else json res
  end.

End Client.

(** ** The screen: [src/screens/HomeScreen.tsx] *)

Module HomeScreen.

(** *** Types *)

Record Price := {
  store : string;
  product_name : string;
  brand : string;
  price : Z;
  url : string;
  promo_text : option string
}.

(** [CartItem = Price & { quantity: number }] *)
Record CartItem := {
  listing : Price;
  quantity : Z
}.

Record SavedList := {
  id : string;
  name : string;
  items : list CartItem;
  total : Z;
  date : string
}.

(** The body of a search response as [pollSearch] reads it; [status] is
    whatever string the server sent. *)
Record SearchResponse := {
  status : string;
  message : option string;
  results : option (list Price)
}.

(** *** The search cells and the pending timers *)

(** A pending [setTimeout(() => pollSearch(q, city, province), delay)]. *)
Record Timer := {
  callback : Client.Request;
  delay : Z
}.

Record Search := {
  data : list Price;
  loading : bool;
  error : option string;
  statusMessage : option string;
  timers : list Timer
}.

Definition setData (v : list Price) (s : Search) : Search :=
  {| data := v; loading := loading s; error := error s;
     statusMessage := statusMessage s; timers := timers s |}.
Definition setLoading (v : bool) (s : Search) : Search :=
  {| data := data s; loading := v; error := error s;
     statusMessage := statusMessage s; timers := timers s |}.
Definition setError (v : option string) (s : Search) : Search :=
  {| data := data s; loading := loading s; error := v;
     statusMessage := statusMessage s; timers := timers s |}.
Definition setStatusMessage (v : option string) (s : Search) : Search :=
  {| data := data s; loading := loading s; error := error s;
     statusMessage := v; timers := timers s |}.
Definition setTimeout (cb : Client.Request) (ms : Z) (s : Search)
    : Search :=
  {| data := data s; loading := loading s; error := error s;
     statusMessage := statusMessage s;
     timers := timers s ++ [{| callback := cb; delay := ms |}] |}.

(** *** Polling *)

(** [t => t.url === u], the callback handed to [findIndex]. *)
Definition has_url (u : string) (t : Price) : bool := String.eqb (url t) u.

(** [(item, index, self) =>
       index === self.findIndex(t => t.url === item.url)] *)
Definition first_with_url (item : Price) (index : Z) (self : list Price)
    : bool :=
  (index =? JS.findIndex (has_url (url item)) self)%Z.

(** The duplicate filter of [pollSearch]:
    [rawResults.filter(first_with_url)]. *)
Definition uniqueResults (rawResults : list Price) : list Price :=
  JS.filter_idx first_with_url rawResults.

(** [err.message?.includes("Too many requests")] *)
Definition is_rate_limit (err : JS.Error) : bool :=
  match JS.message err with
  | Some m => JS.includes m "Too many requests"
  | None => false
  end.

(** ["Error de conexión"], the letter o-acute being U+00F3. *)
Definition connection_error : string :=
  JS.with_unit "Error de conexi" 243 "n".

(** One activation of [pollSearch(searchQuery, userCity, userProvince)]
    against the network [fetch]. *)
Definition pollSearch (fetch : Client.Request -> Client.Fetched SearchResponse)
    (searchQuery userCity userProvince : string) (s : Search) : Search :=
  let again := {| Client.q := searchQuery; Client.userCity := userCity;
                  Client.userProvince := userProvince |} in
  match Client.searchProduct fetch searchQuery userCity userProvince with
  | inr response =>
      if String.eqb (status response) "COMPLETED" then
        let rawResults := default [] (results response) in
        setStatusMessage None
          (setLoading false (setData (uniqueResults rawResults) s))
      else if String.eqb (status response) "STARTED"
              || String.eqb (status response) "PROCESSING" then
        setTimeout again 4000
          (setStatusMessage
             (Some (JS.or_default (message response)
                      "Buscando mejores precios...")) s)
      else s
  | inl err =>
      if is_rate_limit err then
        setTimeout again 10000
          (setStatusMessage
             (Some "Servidor ocupado, reintentando en breve...") s)
      else
        setLoading false
          (setError (Some (JS.or_default (JS.message err)
                             connection_error)) s)
  end.

(** The cells as [handleSearchWithTerm] leaves them just before it calls
    [pollSearch]. *)
Definition searching (city : string) : Search :=
  {| data := []; loading := true; error := None;
     statusMessage := Some ("Buscando en " +:+ city +:+ "...");
     timers := [] |}.

(** A poll chain: each activation meets the next network of [nets]; the
    timer it leaves, if any, starts the next activation. *)
Fixpoint pollChain (nets : list (Client.Request -> Client.Fetched SearchResponse))
    (rq : Client.Request) (s : Search) : Search :=
  match nets with
  | [] => s
  | fetch :: nets' =>
      let s' := pollSearch fetch (Client.q rq) (Client.userCity rq)
                  (Client.userProvince rq) s in
      match timers s' with
      | [] => s'
      | t :: pending =>
          pollChain nets' (callback t)
            {| data := data s'; loading := loading s'; error := error s';
               statusMessage := statusMessage s'; timers := pending |}
      end
  end.

(** *** Derived data and filters *)

Record Filters := {
  selectedBrands : list string;
  selectedStores : list string;
  selectedItems : list string;
  sortAsc : bool
}.

Definition brandOk (f : Filters) (p : Price) : bool :=
  (length (selectedBrands f) =? 0)%nat
  || JS.array_includes (selectedBrands f) (brand p).

Definition storeOk (f : Filters) (p : Price) : bool :=
  (length (selectedStores f) =? 0)%nat
  || JS.array_includes (selectedStores f) (store p).

Definition itemOk (f : Filters) (p : Price) : bool :=
  (length (selectedItems f) =? 0)%nat
  || JS.some
       (fun i => JS.includes (JS.toLowerCase (product_name p))
                   (JS.toLowerCase i))
       (selectedItems f).

(** The callback of [data.filter] in [filtered]. *)
Definition keep (f : Filters) (p : Price) : bool :=
  brandOk f p && storeOk f p && itemOk f p.

(** The comparator of [result.sort]. *)
Definition byPrice (asc : bool) (a b : Price) : Z :=
  if asc then (price a - price b)%Z else (price b - price a)%Z.

Definition filtered (data : list Price) (f : Filters) : list Price :=
  let result := List.filter (keep f) data in
  JS.sort (byPrice (sortAsc f)) result.

(** [filtered[0]?.price]: [None] is [undefined]. *)
Definition cheapestPrice (data : list Price) (f : Filters) : option Z :=
  price <$> head (filtered data f).

(** *** Cart logic *)

Definition item_url (i : CartItem) : string := url (listing i).

(** [i => i.url === u ? { ...i, quantity: i.quantity + 1 } : i] *)
Definition bump (u : string) (i : CartItem) : CartItem :=
  if String.eqb (item_url i) u
  then {| listing := listing i; quantity := (quantity i + 1)%Z |}
  else i.

(** The updater that [addToCart(product)] hands to [setCart]. *)
Definition addToCart (product : Price) (prev : list CartItem)
    : list CartItem :=
  match JS.find (fun i => String.eqb (item_url i) (url product)) prev with
  | Some existing => map (bump (url product)) prev
  | None => prev ++ [{| listing := product; quantity := 1%Z |}]
  end.

(** [cart.reduce((sum, item) => sum + item.price * item.quantity, 0)] *)
Definition totalCartPrice (cart : list CartItem) : Z :=
  fold_left (fun sum item => (sum + price (listing item) * quantity item)%Z)
    cart 0%Z.

(** *** The device: local persistence, alerts, clock *)

(** What a key of [AsyncStorage] holds: nothing, the JSON text of a value
    of the type the screen writes under that key, or any other content,
    on which [JSON.parse] or the use of its result throws. *)
Inductive Stored (A : Type) :=
| Absent
| Text (v : A)
| Corrupt.
Arguments Absent {A}.
Arguments Text {A} _.
Arguments Corrupt {A}.

(** A call of [AsyncStorage.setItem] that went through. *)
Inductive Write :=
| WriteHistory (v : list string)
| WriteLists (v : list SavedList).

(** The keys ['@search_history'] and ['@my_lists'], whether the next
    [getItem] / [setItem] rejects, and the writes done so far. *)
Record Device := {
  search_history : Stored (list string);
  my_lists : Stored (list SavedList);
  getItem_rejects : bool;
  setItem_rejects : bool;
  writes : list Write
}.

Definition storage_error : JS.Error := JS.new_Error "AsyncStorage failure".
Definition parse_error : JS.Error := JS.new_Error "JSON Parse error".

Definition setItem_history (v : list string) (d : Device)
    : JS.Error + Device :=
  if setItem_rejects d then inl storage_error
  else inr {| search_history := Text v; my_lists := my_lists d;
              getItem_rejects := getItem_rejects d;
              setItem_rejects := setItem_rejects d;
              writes := writes d ++ [WriteHistory v] |}.

Definition setItem_lists (v : list SavedList) (d : Device)
    : JS.Error + Device :=
  if setItem_rejects d then inl storage_error
  else inr {| search_history := search_history d; my_lists := Text v;
              getItem_rejects := getItem_rejects d;
              setItem_rejects := setItem_rejects d;
              writes := writes d ++ [WriteLists v] |}.

(** [await AsyncStorage.getItem('@my_lists')] followed by
    [existingData ? JSON.parse(existingData) : []]. *)
Definition read_lists (d : Device) : JS.Error + list SavedList :=
  if getItem_rejects d then inl storage_error
  else match my_lists d with
       | Absent => inr []
       | Text v => inr v
       | Corrupt => inl parse_error
       end.

(** [Date.now().toString()] and [new Date().toLocaleDateString()] at the
    moment of the call. *)
Record Clock := {
  now_string : string;
  locale_date : string
}.

(** *** Search history *)

Definition MAX_HISTORY : nat := 20.

(** [h.toLowerCase() !== trimmedTerm.toLowerCase()] *)
Definition other_term (trimmedTerm h : string) : bool :=
  negb (String.eqb (JS.toLowerCase h) (JS.toLowerCase trimmedTerm)).

(** The list that [saveToHistory] computes when the term is not blank. *)
Definition newHistory (trimmedTerm : string) (searchHistory : list string)
    : list string :=
  let filtered := List.filter (other_term trimmedTerm) searchHistory in
  JS.slice0 MAX_HISTORY (trimmedTerm :: filtered).

(** [saveToHistory(term)] on the cell [searchHistory] and the device.
    The cell is set before the write is awaited; a rejected write leaves
    the device as it was. *)
Definition saveToHistory (term : string)
    (st : list string * Device) : list string * Device :=
  let '(searchHistory, d) := st in
  let trimmedTerm := JS.trim term in
  if negb (JS.truthy trimmedTerm) then st
  else
    let h := newHistory trimmedTerm searchHistory in
    match setItem_history h d with
    | inr d' => (h, d')
    | inl _ => (h, d)
    end.

(** A run of searches: the terms are recorded one after the other. *)
Definition recordAll (terms : list string) (st : list string * Device)
    : list string * Device :=
  fold_left (fun st term => saveToHistory term st) terms st.

(** *** Saved lists *)

(** The cells of the list modal, and the alerts shown so far as
    (title, message). *)
Record Lists := {
  cart : list CartItem;
  isListModalOpen : bool;
  listName : string;
  alerts : list (string * string)
}.

Definition alert (title msg : string) (s : Lists) : Lists :=
  {| cart := cart s; isListModalOpen := isListModalOpen s;
     listName := listName s; alerts := alerts s ++ [(title, msg)] |}.

(** ["Éxito"], the capital E-acute being U+00C9. *)
Definition success_title : string := JS.with_unit EmptyString 201 "xito".

(** [{ id: Date.now().toString(), name: listName, items: cart,
      total: totalCartPrice, date: new Date().toLocaleDateString() }] *)
Definition newList (clock : Clock) (s : Lists) : SavedList :=
  {| id := now_string clock; name := listName s; items := cart s;
     total := totalCartPrice (cart s); date := locale_date clock |}.

(** [saveListToDevice()] *)
Definition saveListToDevice (clock : Clock) (st : Lists * Device)
    : Lists * Device :=
  let '(s, d) := st in
  if negb (JS.truthy (JS.trim (listName s))) then
    (alert "Error" "Ponle un nombre a tu lista" s, d)
  else
    match read_lists d with
    | inl _ => (alert "Error" "Error al guardar" s, d)
    | inr prevLists =>
        match setItem_lists (newList clock s :: prevLists) d with
        | inl _ => (alert "Error" "Error al guardar" s, d)
        | inr d' =>
            let s' := alert success_title "Lista guardada" s in
            ({| cart := []; isListModalOpen := false; listName := EmptyString;
                alerts := alerts s' |}, d')
        end
    end.

(** *** The rest of the cart *)

(** The updater that [removeFromCart(url)] hands to [setCart]. *)
Definition removeFromCart (u : string) (prev : list CartItem)
    : list CartItem :=
  List.filter (fun i => negb (String.eqb (item_url i) u)) prev.

Section Grouping.

(** The property names that a fresh object [{}] inherits from
    [Object.prototype]; the engine fixes them. *)
Variable inherited : string -> bool.

Definition push_error : JS.Error :=
  JS.new_Error "acc[item.store].push is not a function".

(** The reducer of [groupedCart]:
    [if (!acc[item.store]) acc[item.store] = [];
     acc[item.store].push(item); return acc].
    Under an inherited name [acc[item.store]] is truthy and has no
    [push], so the call throws. *)
Definition group_step (acc : JS.Error + gmap string (list CartItem))
    (item : CartItem) : JS.Error + gmap string (list CartItem) :=
  match acc with
  | inl e => inl e
  | inr m =>
      match m !! store (listing item) with
      | Some group => inr (<[store (listing item) := group ++ [item]]> m)
      | None =>
          if inherited (store (listing item)) then inl push_error
          else inr (<[store (listing item) := [item]]> m)
      end
  end.

(** [cart.reduce(group_step, {})] *)
Definition groupedCart (cart : list CartItem)
    : JS.Error + gmap string (list CartItem) :=
  fold_left group_step cart (inr ∅).

End Grouping.

(** *** Facets and the check boxes *)

Definition storeFilter (data : list Price) : list string :=
  JS.from_Set (map store data).

Definition brandFilter (data : list Price) : list string :=
  JS.from_Set (map brand data).

(** [d.product_name.split(" ")[0]] *)
Definition first_word (d : Price) : string :=
  fst (JS.split_space (product_name d)).

Definition itemsFilter (data : list Price) : list string :=
  JS.from_Set (map first_word data).

(** The updater of a check box:
    [prev => prev.includes(b) ? prev.filter(x => x !== b) : [...prev, b]] *)
Definition toggle (b : string) (prev : list string) : list string :=
  if JS.array_includes prev b
  then List.filter (fun x => negb (String.eqb x b)) prev
  else prev ++ [b].

(** *** The rest of the search history *)

(** [deleteHistoryItem(term)]: the cell is set before the write is
    awaited. *)
Definition deleteHistoryItem (term : string) (st : list string * Device)
    : list string * Device :=
  let '(searchHistory, d) := st in
  let updated :=
    List.filter (fun h => negb (String.eqb h term)) searchHistory in
  match setItem_history updated d with
  | inr d' => (updated, d')
  | inl _ => (updated, d)
  end.

(** [clearAllHistory()]; [removeItem_rejects] tells whether
    [AsyncStorage.removeItem] rejects. *)
Definition clearAllHistory (removeItem_rejects : bool)
    (st : list string * Device) : list string * Device :=
  let '(_, d) := st in
  ([],
   if removeItem_rejects then d
   else {| search_history := Absent; my_lists := my_lists d;
           getItem_rejects := getItem_rejects d;
           setItem_rejects := setItem_rejects d; writes := writes d |}).

(** [loadSearchHistory()]: a rejected read and a parse error are logged
    and nothing else. [Corrupt] stands here for content on which
    [JSON.parse] throws; content that parses to something else than an
    array of strings is not covered. *)
Definition loadSearchHistory (st : list string * Device)
    : list string * Device :=
  let '(searchHistory, d) := st in
  if getItem_rejects d then st
  else match search_history d with
       | Text saved => (saved, d)
       | Absent => st
       | Corrupt => st
       end.

(** *** The saved lists shown *)

(** The cells of the modal of saved lists, and the alerts it showed. *)
Record ListsView := {
  savedLists : list SavedList;
  isHistoryOpen : bool;
  shown : list (string * string)
}.

Definition load_failed (v : ListsView) : ListsView :=
  {| savedLists := savedLists v; isHistoryOpen := isHistoryOpen v;
     shown := shown v ++ [("Error", "No se pudieron cargar las listas")] |}.

(** [loadSavedLists()] *)
Definition loadSavedLists (st : ListsView * Device) : ListsView * Device :=
  let '(v, d) := st in
  if getItem_rejects d then (load_failed v, d)
  else match my_lists d with
       | Absent =>
           ({| savedLists := savedLists v; isHistoryOpen := true;
               shown := shown v |}, d)
       | Text lists =>
           ({| savedLists := lists; isHistoryOpen := true;
               shown := shown v |}, d)
       | Corrupt => (load_failed v, d)
       end.

(** [deleteList(id)] *)
Definition deleteList (i : string) (st : ListsView * Device)
    : ListsView * Device :=
  let '(v, d) := st in
  let updated :=
    List.filter (fun l => negb (String.eqb (id l) i)) (savedLists v) in
  let v' := {| savedLists := updated; isHistoryOpen := isHistoryOpen v;
               shown := shown v |} in
  match setItem_lists updated d with
  | inr d' => (v', d')
  | inl _ => (v', d)
  end.

(** *** Starting a search *)

Record Location := {
  city : string;
  province : string
}.

(** The cells that [handleSearchWithTerm] reads or sets, and the device. *)
Record Screen := {
  query : string;
  location : option Location;
  hasSearched : bool;
  search : Search;
  searchHistory : list string;
  device : Device
}.

(** [handleSearchWithTerm(overrideTerm)], up to the return of the first
    activation of [pollSearch]. *)
Definition handleSearchWithTerm
    (fetch : Client.Request -> Client.Fetched SearchResponse)
    (overrideTerm : option string) (sc : Screen) : Screen :=
  let searchTerm := JS.or_default overrideTerm (query sc) in
  if (String.length searchTerm <? 2)%nat then sc
  else
    let '(h, d) := saveToHistory searchTerm (searchHistory sc, device sc) in
    let city := JS.or_default (city <$> location sc) "MAR_DEL_PLATA" in
    let province :=
      JS.or_default (province <$> location sc) "BUENOS_AIRES" in
    let s :=
      setData []
        (setStatusMessage (Some ("Buscando en " +:+ city +:+ "..."))
           (setError None (setLoading true (search sc)))) in
    {| query := query sc; location := location sc; hasSearched := true;
       search := pollSearch fetch searchTerm city province s;
       searchHistory := h; device := d |}.

End HomeScreen.

(** ** The earlier variant of the screen, kept after the client in
       [src/api/client.ts] *)

Module Legacy.
Import HomeScreen.

Definition setTimeout_v1 (query : string) (ms : Z) (s : Search) : Search :=
  setTimeout {| Client.q := query; Client.userCity := EmptyString;
                Client.userProvince := EmptyString |} ms s.

(** [pollSearch(searchQuery)] of the earlier screen: no duplicate filter,
    a 3000 ms retry, a branch for EMPTY and no rate-limit branch. *)
Definition pollSearch (fetch : string -> Client.Fetched SearchResponse)
    (searchQuery : string) (s : Search) : Search :=
  match Client.searchProduct_v1 fetch searchQuery with
  | inr response =>
      if String.eqb (status response) "COMPLETED" then
        setStatusMessage None
          (setLoading false (setData (default [] (results response)) s))
      else if String.eqb (status response) "STARTED"
              || String.eqb (status response) "PROCESSING" then
        setTimeout_v1 searchQuery 3000
          (setStatusMessage
             (Some (JS.or_default (message response)
                      "Buscando mejores precios...")) s)
      else if String.eqb (status response) "EMPTY" then
        setLoading false (setData [] s)
      else s
  | inl err =>
      setLoading false
        (setError (Some (JS.or_default (JS.message err)
                           connection_error)) s)
  end.

(** The brand test of the earlier screen, keyed on the store. *)
Definition brandOk (f : Filters) (p : Price) : bool :=
  (length (selectedBrands f) =? 0)%nat
  || JS.array_includes (selectedBrands f) (store p).

(** [filtered] of the earlier screen: no store test. *)
Definition filtered (data : list Price) (f : Filters) : list Price :=
  let result := List.filter (fun p => brandOk f p && itemOk f p) data in
  JS.sort (byPrice (sortAsc f)) result.

End Legacy.

(** ** Vocabulary of the statements *)

Module Spec.
Import HomeScreen.

(** Every code unit of [s] is white space (the empty string included). *)
Fixpoint blank (s : string) : bool :=
  match s with
  | EmptyString => true
  | String c s' => JS.isWhiteSpace c && blank s'
  end.

(** Two history entries are the same term when they agree up to case. *)
Definition same_term (a b : string) : Prop :=
  JS.toLowerCase a = JS.toLowerCase b.

(** The duplicate filter in the middle of its run: [pre] has been
    visited, [l] is still to come. *)
Definition unique_from (pre l : list Price) : list Price :=
  JS.filter_from first_with_url (pre ++ l) l (Z.of_nat (length pre)).

(** Sample listings. *)
Definition listing_of (shop title mark : string) (cost : Z) (link : string)
    : Price :=
  {| store := shop; product_name := title; brand := mark; price := cost;
     url := link; promo_text := None |}.

Definition yerba : Price :=
  listing_of "Coto" "Yerba Playadito 1kg" "Playadito" 3500 "https://coto/yerba".
Definition leche : Price :=
  listing_of "Carrefour" "Leche La Serenisima 1L" "La Serenisima" 1200
    "https://carrefour/leche".

Definition no_filters (asc : bool) : Filters :=
  {| selectedBrands := []; selectedStores := []; selectedItems := [];
     sortAsc := asc |}.

(** Twenty-one search terms, different up to case and white space. *)
Definition terms21 : list string :=
  ["yerba"; "leche"; "pan"; "queso"; "arroz"; "fideos"; "aceite";
   "azucar"; "harina"; "cafe"; "te"; "galletitas"; "manteca"; "yogur";
   "huevos"; "tomate"; "papa"; "cebolla"; "jabon"; "shampoo"; " Mate "].

Definition device0 : Device :=
  {| search_history := Absent; my_lists := Absent;
     getItem_rejects := false; setItem_rejects := false; writes := [] |}.

(** A device whose next write is rejected. *)
Definition device_full : Device :=
  {| search_history := Absent; my_lists := Absent;
     getItem_rejects := false; setItem_rejects := true; writes := [] |}.

Definition clock0 : Clock :=
  {| now_string := "1700000000000"; locale_date := "14/11/2023" |}.

(** The list modal with two packs of yerba in the cart and the given
    name typed. *)
Definition modal_named (title : string) : Lists :=
  {| cart := [{| listing := yerba; quantity := 2 |}];
     isListModalOpen := true; listName := title; alerts := [] |}.

(** A network that answers every request with the given status line and
    body. *)
Definition answers (st : Z) (body : JS.Error + SearchResponse)
    : Client.Request -> Client.Fetched SearchResponse :=
  fun _ => Client.Resolved (Client.respond st body).

Definition body_of (st : string) (msg : option string)
    (res : option (list Price)) : JS.Error + SearchResponse :=
  inr {| status := st; message := msg; results := res |}.

(** The names that an object inherits from [Object.prototype] in
    ECMAScript, Annex B included. *)
Definition Object_prototype_names : list string :=
  ["constructor"; "hasOwnProperty"; "isPrototypeOf"; "propertyIsEnumerable";
   "toLocaleString"; "toString"; "valueOf"; "__proto__";
   "__defineGetter__"; "__defineSetter__"; "__lookupGetter__";
   "__lookupSetter__"].

Definition inherits (k : string) : bool :=
  JS.array_includes Object_prototype_names k.

(** A history as the screen keeps it: no two entries agree up to case,
    there are at most 20, and every entry is a trimmed, non-empty term. *)
Definition history_ok (h : list string) : Prop :=
  NoDup (map JS.toLowerCase h)
  /\ length h <= 20
  /\ Forall (fun e => JS.trim e = e /\ e <> EmptyString) h.

(** The order of the list shown, for either direction of the toggle. *)
Definition in_order (asc : bool) (a b : Price) : Prop :=
  if asc then (price a <= price b)%Z else (price b <= price a)%Z.

(** The listings at a given price. *)
Definition costs (v : Z) (p : Price) : bool := (price p =? v)%Z.

(** [F] lists the values of [g] over the result set, each once, in the
    order of first appearance: the values found in a longer result set
    come after the ones found so far. *)
Definition first_appearance (g : Price -> string)
    (F : list Price -> list string) : Prop :=
  forall data,
    NoDup (F data)
    /\ (forall x, x ∈ F data <-> exists p, p ∈ data /\ g p = x)
    /\ forall more, F data `prefix_of` F (data ++ more).

(** A body that tells the job is still running. *)
Definition in_progress (r : SearchResponse) : Prop :=
  status r = "STARTED" \/ status r = "PROCESSING".

(** The networks of a job that answers with the given bodies, one per
    request, each under status 200. *)
Definition serves (bodies : list SearchResponse)
    : list (Client.Request -> Client.Fetched SearchResponse) :=
  map (fun b => answers 200 (inr b)) bodies.

(** A saved list as [saveListToDevice] makes them: a name that is not
    blank and a total that is the total of its items. *)
Definition saved_ok (l : SavedList) : Prop :=
  blank (name l) = false /\ total l = totalCartPrice (items l).

(** The items of the cart that come from one store, in cart order. *)
Definition in_store (st : string) (cart : list CartItem) : list CartItem :=
  List.filter (fun i => String.eqb (store (listing i)) st) cart.

(** The cart with a quantity and a price per item, as a sum. *)
Definition line (i : CartItem) : Z := (price (listing i) * quantity i)%Z.

(** An integer that a JavaScript number holds exactly, together with all
    integers between it and zero. *)
Definition safe_integer (z : Z) : Prop :=
  (-9007199254740991 <= z <= 9007199254740991)%Z.

(** The numbers that [totalCartPrice] computes on its way, from the sum
    [sum] on: each product and each sum after it. *)
Fixpoint running (sum : Z) (cart : list CartItem) : list Z :=
  match cart with
  | [] => []
  | i :: l => line i :: (sum + line i)%Z :: running (sum + line i)%Z l
  end.

(** A cart on which the arithmetic of [totalCartPrice] is exact: prices
    and quantities are integers that a number holds exactly, and so is
    every product and every sum computed along the cart. *)
Definition exact_total (cart : list CartItem) : Prop :=
  Forall (fun i => safe_integer (price (listing i))
                   /\ safe_integer (quantity i)) cart
  /\ Forall safe_integer (running 0 cart).

(** The filters with one brand, or one store, ticked. *)
Definition only_brand (b : string) (asc : bool) : Filters :=
  {| selectedBrands := [b]; selectedStores := []; selectedItems := [];
     sortAsc := asc |}.

Definition only_store (st : string) (asc : bool) : Filters :=
  {| selectedBrands := []; selectedStores := [st]; selectedItems := [];
     sortAsc := asc |}.

Definition view0 : ListsView :=
  {| savedLists := []; isHistoryOpen := false; shown := [] |}.

Definition screen0 (typed : string) : Screen :=
  {| query := typed; location := None; hasSearched := false;
     search := {| data := [leche]; loading := false;
                  error := Some "Search failed"; statusMessage := None;
                  timers := [] |};
     searchHistory := ["leche"]; device := device0 |}.

End Spec.

(** ** Facts about the JavaScript primitives *)

Module JSFacts.
Import JS.

Lemma append_String (c : ascii) (a b : string) :
  String c a +:+ b = String c (a +:+ b).
Proof. reflexivity. Qed.

Lemma prefix_app (sub s : string) :
  String.prefix sub s = true <-> exists b, s = sub +:+ b.
Proof.
  revert s. induction sub as [|a sub IH]; intros s; simpl.
  - split; [intros _; by exists s | by destruct s].
  - destruct s as [|c s]; simpl.
    + split; [done | by intros [b Hb]].
    + destruct (ascii_dec a c) as [->|Hne].
      * rewrite IH. split; intros [b Hb]; exists b;
          rewrite append_String in *; congruence.
      * split; [done | intros [b Hb]].
        rewrite append_String in Hb. congruence.
Qed.

(** [includes] is the substring test. *)
Lemma includes_spec (s sub : string) :
  includes s sub = true <-> exists a b, s = a +:+ sub +:+ b.
Proof.
  induction s as [|c s IH]; cbn [includes].
  - rewrite orb_false_r, prefix_app. split.
    + intros [b Hb]. by exists EmptyString, b.
    + intros [a [b Hb]]. destruct a; [by exists b | done].
  - rewrite orb_true_iff, prefix_app, IH. split.
    + intros [[b Hb] | [a [b Hb]]].
      * by exists EmptyString, b.
      * exists (String c a), b. by rewrite append_String, Hb.
    + intros [a [b Hb]]. destruct a as [|c' a].
      * left. by exists b.
      * right. exists a, b. rewrite append_String in Hb. congruence.
Qed.

Lemma truthy_false (s : string) : truthy s = false <-> s = EmptyString.
Proof.
  unfold truthy. rewrite negb_false_iff. apply String.eqb_eq.
Qed.

Lemma truthy_true (s : string) : truthy s = true <-> s <> EmptyString.
Proof.
  unfold truthy. rewrite negb_true_iff. apply String.eqb_neq.
Qed.

Lemma trimStart_blank (s : string) :
  Spec.blank (trimStart s) = Spec.blank s.
Proof.
  induction s as [|c s IH]; simpl; [done|].
  destruct (isWhiteSpace c) eqn:Hc; simpl; [done | by rewrite Hc].
Qed.

Lemma trimEnd_empty (s : string) :
  trimEnd s = EmptyString <-> Spec.blank s = true.
Proof.
  induction s as [|c s IH]; simpl; [done|].
  rewrite andb_true_iff, <- IH.
  destruct (trimEnd s) eqn:Ht, (isWhiteSpace c);
    split; try done; intros [? ?]; done.
Qed.

(** [trim] returns the empty string exactly on the strings made of white
    space only. *)
Lemma trim_empty (s : string) :
  trim s = EmptyString <-> Spec.blank s = true.
Proof. unfold trim. by rewrite trimEnd_empty, trimStart_blank. Qed.

Lemma array_includes_spec (l : list string) (s : string) :
  array_includes l s = true <-> s ∈ l.
Proof.
  unfold array_includes. rewrite existsb_exists. split.
  - intros [x [Hx He]]. apply String.eqb_eq in He. subst.
    by apply list_elem_of_In.
  - intros H. exists s. split; [by apply list_elem_of_In|].
    apply String.eqb_refl.
Qed.

Lemma length_zero {A} (l : list A) : (length l =? 0)%nat = true <-> l = [].
Proof. destruct l; simpl; naive_solver. Qed.

End JSFacts.

(** ** The duplicate filter *)

Module Dedupe.
Import HomeScreen Spec.

Section FindIndex.
Context {A : Type} (p : A -> bool).

Lemma findIndex_from_hit (l : list A) (i : Z) :
  existsb p l = true ->
  (i <= JS.findIndex_from p l i < i + Z.of_nat (length l))%Z.
Proof.
  revert i. induction l as [|x l IH]; intros i; simpl; [done|].
  destruct (p x); simpl; [lia|].
  intros H. specialize (IH (i + 1)%Z H). lia.
Qed.

Lemma findIndex_from_app_hit (pre l : list A) (i : Z) :
  existsb p pre = true ->
  JS.findIndex_from p (pre ++ l) i = JS.findIndex_from p pre i.
Proof.
  revert i. induction pre as [|x pre IH]; intros i; simpl; [done|].
  destruct (p x); simpl; [done | apply IH].
Qed.

Lemma findIndex_from_app_miss (pre l : list A) (i : Z) :
  existsb p pre = false ->
  JS.findIndex_from p (pre ++ l) i
  = JS.findIndex_from p l (i + Z.of_nat (length pre))%Z.
Proof.
  revert i. induction pre as [|x pre IH]; intros i; simpl.
  - intros _. f_equal. lia.
  - destruct (p x); simpl; [done|].
    intros H. rewrite (IH _ H). f_equal. lia.
Qed.
End FindIndex.

(** An element passes the test exactly when no earlier element carries
    its url. *)
Lemma first_with_url_test (pre l : list Price) (x : Price) :
  first_with_url x (Z.of_nat (length pre)) (pre ++ x :: l)
  = negb (existsb (has_url (url x)) pre).
Proof.
  unfold first_with_url, JS.findIndex. fold (has_url (url x)).
  destruct (existsb (has_url (url x)) pre) eqn:He; simpl.
  - rewrite findIndex_from_app_hit by done.
    pose proof (findIndex_from_hit _ pre 0%Z He). apply Z.eqb_neq. lia.
  - rewrite findIndex_from_app_miss by done. simpl.
    unfold has_url at 1. rewrite String.eqb_refl. apply Z.eqb_eq. lia.
Qed.

Lemma unique_from_cons (pre l : list Price) (x : Price) :
  unique_from pre (x :: l)
  = if existsb (has_url (url x)) pre then unique_from (pre ++ [x]) l
    else x :: unique_from (pre ++ [x]) l.
Proof.
  unfold unique_from. cbn [JS.filter_from].
  rewrite first_with_url_test.
  replace (pre ++ x :: l) with ((pre ++ [x]) ++ l) by by rewrite <- app_assoc.
  replace (Z.of_nat (length pre) + 1)%Z with (Z.of_nat (length (pre ++ [x])))
    by (rewrite length_app; simpl; lia).
  by destruct (existsb (has_url (url x)) pre).
Qed.

Lemma uniqueResults_unique_from (R : list Price) :
  uniqueResults R = unique_from [] R.
Proof. reflexivity. Qed.

Lemma unique_from_fresh (pre l : list Price) :
  Forall (fun y => existsb (has_url (url y)) pre = false)
    (unique_from pre l).
Proof.
  revert pre. induction l as [|x l IH]; intros pre.
  - constructor.
  - rewrite unique_from_cons.
    assert (Forall (fun y => existsb (has_url (url y)) pre = false)
              (unique_from (pre ++ [x]) l)) as Hrest.
    { eapply Forall_impl; [apply IH|]. intros y Hy. simpl in Hy.
      rewrite existsb_app in Hy. by apply orb_false_iff in Hy as [? _]. }
    destruct (existsb (has_url (url x)) pre) eqn:He; [done|].
    by constructor.
Qed.

Lemma unique_from_NoDup (pre l : list Price) :
  NoDup (map url (unique_from pre l)).
Proof.
  revert pre. induction l as [|x l IH]; intros pre.
  - constructor.
  - rewrite unique_from_cons.
    destruct (existsb (has_url (url x)) pre); [apply IH|].
    simpl. constructor; [|apply IH].
    intros Hin. apply list_elem_of_fmap in Hin as [y [Hy Hin]].
    pose proof (unique_from_fresh (pre ++ [x]) l) as Hf.
    rewrite Forall_forall in Hf. specialize (Hf y Hin).
    rewrite existsb_app in Hf. apply orb_false_iff in Hf as [_ Hf].
    simpl in Hf. unfold has_url in Hf. rewrite Hy, String.eqb_refl in Hf.
    done.
Qed.

Lemma unique_from_sublist (pre l : list Price) :
  sublist (unique_from pre l) l.
Proof.
  revert pre. induction l as [|x l IH]; intros pre.
  - constructor.
  - rewrite unique_from_cons.
    destruct (existsb (has_url (url x)) pre);
      [apply sublist_cons | apply sublist_skip]; apply IH.
Qed.

Lemma unique_from_find (u : string) (pre l : list Price) :
  List.find (has_url u) (unique_from pre l)
  = if existsb (has_url u) pre then None else List.find (has_url u) l.
Proof.
  revert pre. induction l as [|x l IH]; intros pre.
  - simpl. by destruct (existsb (has_url u) pre).
  - rewrite unique_from_cons.
    assert (has_url u x = true ->
            existsb (has_url u) pre = existsb (has_url (url x)) pre) as Hux.
    { unfold has_url at 1. by intros ->%String.eqb_eq. }
    destruct (existsb (has_url (url x)) pre) eqn:Hx; cbn [List.find];
      rewrite IH, existsb_app; cbn [existsb]; rewrite orb_false_r;
      destruct (has_url u x) eqn:Hu;
      rewrite ?Hux by done; rewrite ?orb_true_r, ?orb_false_r; done.
Qed.

Lemma has_url_decide (u : string) (t : Price) :
  has_url u t = bool_decide (url t = u).
Proof.
  unfold has_url. destruct (String.eqb_spec (url t) u) as [He|Hne].
  - by rewrite bool_decide_eq_true_2.
  - by rewrite bool_decide_eq_false_2.
Qed.

Lemma existsb_has_url (u : string) (l : list Price) :
  existsb (has_url u) l = bool_decide (u ∈ map url l).
Proof.
  apply eq_true_iff_eq. rewrite bool_decide_eq_true, existsb_exists.
  rewrite list_elem_of_In, in_map_iff. split.
  - intros [t [Ht Hu]]. exists t. by apply String.eqb_eq in Hu.
  - intros [t [Hu Ht]]. exists t. split; [done|]. by apply String.eqb_eq.
Qed.

Lemma unique_from_snoc (pre l : list Price) (x : Price) :
  unique_from pre (l ++ [x])
  = unique_from pre l
    ++ (if existsb (has_url (url x)) (pre ++ l) then [] else [x]).
Proof.
  revert pre. induction l as [|y l IH]; intros pre.
  - simpl. rewrite unique_from_cons, app_nil_r.
    by destruct (existsb (has_url (url x)) pre).
  - cbn [app]. rewrite !unique_from_cons, IH, <- app_assoc. cbn [app].
    by destruct (existsb (has_url (url y)) pre).
Qed.

Lemma find_has_url_None (u : string) (l : list Price) :
  List.find (has_url u) l = None <-> u ∉ map url l.
Proof.
  induction l as [|t l IH]; simpl.
  - split; [intros _; apply not_elem_of_nil | done].
  - rewrite not_elem_of_cons, <- IH. unfold has_url at 1.
    destruct (String.eqb_spec (url t) u) as [He|Hne].
    + split; [done | intros [Hc _]; congruence].
    + split; [intros H; split; [congruence | done] | by intros [_ H]].
Qed.

Lemma find_decide_has_url (u : string) (l : list Price) :
  List.find (fun t => bool_decide (url t = u)) l = List.find (has_url u) l.
Proof.
  induction l as [|t l IH]; simpl; [done|].
  by rewrite IH, has_url_decide.
Qed.

(** C6. The duplicate filter of [pollSearch] is the function that keeps
    the first occurrence of each url in the original order: on the empty
    list it gives the empty list, and on a list extended by one element
    [x] it gives what it gave before, followed by [x] exactly when no
    earlier element has the url of [x]. Hence, for every raw result list
    [R], its result has no two elements with the same url, is a
    subsequence of [R], carries the same urls as [R], and for every url
    holds the first element of [R] with that url. *)
Theorem uniqueResults_first_occurrences :
  uniqueResults [] = []
  /\ (forall (R : list Price) (x : Price),
        uniqueResults (R ++ [x])
        = uniqueResults R
          ++ (if bool_decide (url x ∈ map url R) then [] else [x]))
  /\ forall R : list Price,
       NoDup (map url (uniqueResults R))
       /\ sublist (uniqueResults R) R
       /\ (forall u, u ∈ map url (uniqueResults R) <-> u ∈ map url R)
       /\ forall u,
            List.find (fun t => bool_decide (url t = u)) (uniqueResults R)
            = List.find (fun t => bool_decide (url t = u)) R.
Proof.
  split; [reflexivity|]. split.
  - intros R x. rewrite !uniqueResults_unique_from, unique_from_snoc.
    by rewrite existsb_has_url.
  - intros R. rewrite uniqueResults_unique_from.
    split; [apply unique_from_NoDup|].
    split; [apply unique_from_sublist|].
    assert (forall u, List.find (has_url u) (unique_from [] R)
                      = List.find (has_url u) R) as Hfind.
    { intros u. by rewrite unique_from_find. }
    split.
    + intros u.
      destruct (decide (u ∈ map url (unique_from [] R))) as [Hin|Hout],
               (decide (u ∈ map url R)) as [Hin'|Hout']; try tauto.
      * apply find_has_url_None in Hout'. rewrite <- Hfind in Hout'.
        by apply find_has_url_None in Hout'.
      * apply find_has_url_None in Hout. rewrite Hfind in Hout.
        by apply find_has_url_None in Hout.
    + intros u. by rewrite !find_decide_has_url.
Qed.

End Dedupe.

(** ** The result deriver *)

Module Deriver.
Import HomeScreen Spec.

Lemma elem_of_List_filter {A} (f : A -> bool) (l : list A) (x : A) :
  x ∈ List.filter f l <-> x ∈ l /\ f x = true.
Proof. rewrite !list_elem_of_In. apply filter_In. Qed.

Section Sort.
Context {A : Type} (cmp : A -> A -> Z).

Lemma sort_insert_perm (x : A) (l : list A) :
  JS.sort_insert cmp x l ≡ₚ x :: l.
Proof.
  induction l as [|y l IH]; simpl; [done|].
  destruct (cmp x y <=? 0)%Z; [done|].
  rewrite IH. apply perm_swap.
Qed.

(** Sorting rearranges, it neither drops nor adds an element. *)
Lemma sort_perm (l : list A) : JS.sort cmp l ≡ₚ l.
Proof.
  induction l as [|x l IH]; simpl; [done|].
  by rewrite sort_insert_perm, IH.
Qed.

Lemma sort_nil_inv (l : list A) : JS.sort cmp l = [] -> l = [].
Proof.
  intros H. apply Permutation_nil. by rewrite <- H, sort_perm.
Qed.
End Sort.

(** The first element of the sorted array is least for the comparator. *)
Lemma sort_head_least (asc : bool) (l : list Price) (h : Price)
    (t : list Price) :
  JS.sort (byPrice asc) l = h :: t ->
  Forall (fun y => (byPrice asc h y <= 0)%Z) l.
Proof.
  revert h t. induction l as [|x l IH]; intros h t; simpl; [done|].
  destruct (JS.sort (byPrice asc) l) as [|h' t'] eqn:Hs; simpl.
  - apply sort_nil_inv in Hs as ->. intros [= <- <-].
    constructor; [|done]. unfold byPrice. destruct asc; lia.
  - specialize (IH h' t' eq_refl).
    destruct (byPrice asc x h' <=? 0)%Z eqn:Hc; intros [= <- <-].
    + apply Z.leb_le in Hc. constructor.
      * unfold byPrice. destruct asc; lia.
      * eapply Forall_impl; [exact IH|]. intros y Hy. simpl in Hy.
        unfold byPrice in *. destruct asc; lia.
    + apply Z.leb_gt in Hc. constructor; [|done].
      unfold byPrice in *. destruct asc; lia.
Qed.

Lemma brandOk_spec (f : Filters) (p : Price) :
  brandOk f p = true
  <-> selectedBrands f = [] \/ brand p ∈ selectedBrands f.
Proof.
  unfold brandOk.
  by rewrite orb_true_iff, JSFacts.length_zero, JSFacts.array_includes_spec.
Qed.

Lemma storeOk_spec (f : Filters) (p : Price) :
  storeOk f p = true
  <-> selectedStores f = [] \/ store p ∈ selectedStores f.
Proof.
  unfold storeOk.
  by rewrite orb_true_iff, JSFacts.length_zero, JSFacts.array_includes_spec.
Qed.

Lemma itemOk_spec (f : Filters) (p : Price) :
  itemOk f p = true
  <-> selectedItems f = []
      \/ exists i, i ∈ selectedItems f
           /\ exists a b, JS.toLowerCase (product_name p)
                          = a +:+ JS.toLowerCase i +:+ b.
Proof.
  unfold itemOk, JS.some.
  rewrite orb_true_iff, JSFacts.length_zero, existsb_exists.
  split; (intros [H|[i [Hi Hs]]]; [by left | right; exists i]).
  - apply list_elem_of_In in Hi. by apply JSFacts.includes_spec in Hs.
  - apply list_elem_of_In in Hi. by apply JSFacts.includes_spec in Hs.
Qed.

Lemma filtered_perm (data : list Price) (f : Filters) :
  filtered data f ≡ₚ List.filter (keep f) data.
Proof. apply sort_perm. Qed.

Lemma cheapestPrice_undefined (data : list Price) (f : Filters) :
  cheapestPrice data f = None <-> filtered data f = [].
Proof.
  unfold cheapestPrice. by destruct (filtered data f).
Qed.

(** With the ascending order the highlighted price is the least one of
    the list shown. *)
Lemma cheapestPrice_ascending (data : list Price) (f : Filters) (m : Z) :
  sortAsc f = true ->
  cheapestPrice data f = Some m ->
  forall p, p ∈ filtered data f -> (m <= price p)%Z.
Proof.
  unfold cheapestPrice, filtered. intros Ha Hm p Hp.
  destruct (JS.sort _ _) as [|h t] eqn:Hs; [done|].
  injection Hm as <-. rewrite <- Hs, sort_perm in Hp.
  apply sort_head_least in Hs. rewrite Forall_forall in Hs.
  specialize (Hs p Hp). simpl in Hs. rewrite Ha in Hs. simpl in Hs. lia.
Qed.

(** With the descending order it is the greatest one. *)
Lemma cheapestPrice_descending (data : list Price) (f : Filters) (m : Z) :
  sortAsc f = false ->
  cheapestPrice data f = Some m ->
  forall p, p ∈ filtered data f -> (price p <= m)%Z.
Proof.
  unfold cheapestPrice, filtered. intros Ha Hm p Hp.
  destruct (JS.sort _ _) as [|h t] eqn:Hs; [done|].
  injection Hm as <-. rewrite <- Hs, sort_perm in Hp.
  apply sort_head_least in Hs. rewrite Forall_forall in Hs.
  specialize (Hs p Hp). simpl in Hs. rewrite Ha in Hs. simpl in Hs. lia.
Qed.

(** C5. For every result set, every selection of brands, stores and
    item prefixes and either sort direction, a listing is in the
    filtered output iff it is in the result set and passes the three
    tests together: no brand is selected or its brand is selected, no
    store is selected or its store is selected, no item prefix is
    selected or some selected prefix is, up to case, a substring of its
    product name. *)
Theorem filtered_iff (data : list Price) (f : Filters) (p : Price) :
  p ∈ filtered data f
  <-> p ∈ data
      /\ (selectedBrands f = [] \/ brand p ∈ selectedBrands f)
      /\ (selectedStores f = [] \/ store p ∈ selectedStores f)
      /\ (selectedItems f = []
          \/ exists i, i ∈ selectedItems f
               /\ exists a b, JS.toLowerCase (product_name p)
                              = a +:+ JS.toLowerCase i +:+ b).
Proof.
  rewrite filtered_perm, elem_of_List_filter.
  unfold keep. rewrite !andb_true_iff.
  rewrite brandOk_spec, storeOk_spec, itemOk_spec. tauto.
Qed.

(** C4. The highlighted price is the price of the first element of the
    list shown, which under the descending order is not the minimum:
    with the listings at 3500 and 1200 and no filter, sorted downwards,
    [cheapestPrice] is 3500 while the list shown holds a listing at
    1200. *)
Theorem cheapestPrice_descending_not_min :
  cheapestPrice [yerba; leche] (no_filters false) = Some 3500%Z
  /\ leche ∈ filtered [yerba; leche] (no_filters false)
  /\ (price leche < 3500)%Z.
Proof.
  split; [reflexivity|]. split; [|reflexivity].
  rewrite filtered_perm. apply elem_of_List_filter. split; [|reflexivity].
  right. left.
Qed.

End Deriver.

(** ** The cart *)

Module Cart.
Import HomeScreen Spec.

Lemma find_url_None (u : string) (prev : list CartItem) :
  JS.find (fun i => String.eqb (item_url i) u) prev = None
  <-> u ∉ map item_url prev.
Proof.
  unfold JS.find. induction prev as [|i prev IH]; simpl.
  - split; [intros _ H; by apply elem_of_nil in H | done].
  - rewrite not_elem_of_cons, <- IH.
    destruct (String.eqb_spec (item_url i) u) as [->|Hne];
      [split; [done | by intros [? _]] | split; [done | by intros [_ ?]]].
Qed.

Lemma addToCart_present (product : Price) (prev : list CartItem) :
  url product ∈ map item_url prev ->
  addToCart product prev = map (bump (url product)) prev.
Proof.
  intros Hin. unfold addToCart.
  destruct (JS.find _ prev) eqn:Hf; [done|].
  by apply find_url_None in Hf.
Qed.

Lemma addToCart_absent (product : Price) (prev : list CartItem) :
  url product ∉ map item_url prev ->
  addToCart product prev = prev ++ [{| listing := product; quantity := 1 |}].
Proof.
  intros Hin. apply find_url_None in Hin. unfold addToCart. by rewrite Hin.
Qed.

Lemma bump_urls (u : string) (prev : list CartItem) :
  map item_url (map (bump u) prev) = map item_url prev.
Proof.
  rewrite map_map. apply map_ext. intros i. unfold bump.
  by destruct (String.eqb (item_url i) u).
Qed.

Lemma addToCart_NoDup (product : Price) (prev : list CartItem) :
  NoDup (map item_url prev) ->
  NoDup (map item_url (addToCart product prev)).
Proof.
  intros Hnd.
  destruct (decide (url product ∈ map item_url prev)) as [Hin|Hout].
  - by rewrite addToCart_present, bump_urls.
  - rewrite addToCart_absent, map_app by done. simpl.
    apply NoDup_app. split; [done|]. split; [|apply NoDup_singleton].
    intros u Hu ->%list_elem_of_singleton. done.
Qed.

Lemma bump_spec (u : string) (i : CartItem) :
  bump u i
  = {| listing := listing i;
       quantity := if bool_decide (item_url i = u)
                   then (quantity i + 1)%Z else quantity i |}.
Proof.
  unfold bump. destruct i as [l q]. simpl.
  destruct (String.eqb_spec (item_url {| listing := l; quantity := q |}) u)
    as [He|Hne].
  - by rewrite bool_decide_eq_true_2.
  - by rewrite bool_decide_eq_false_2.
Qed.

Lemma bump_others (u : string) (l : list CartItem) :
  u ∉ map item_url l -> map (bump u) l = l.
Proof.
  induction l as [|i l IH]; simpl; [done|].
  intros [Hi Hl]%not_elem_of_cons. rewrite (IH Hl). f_equal.
  unfold bump. assert (item_url i <> u) as Hne by congruence.
  apply String.eqb_neq in Hne. by rewrite Hne.
Qed.

Lemma addToCart_one_item (product : Price)
    (before after : list CartItem) (existing : CartItem) :
  NoDup (map item_url (before ++ existing :: after)) ->
  item_url existing = url product ->
  addToCart product (before ++ existing :: after)
  = before
    ++ {| listing := listing existing;
          quantity := (quantity existing + 1)%Z |} :: after.
Proof.
  intros Hnd Hu. rewrite map_app in Hnd. simpl in Hnd.
  apply NoDup_app in Hnd as (_ & Hbefore & Hnd).
  apply NoDup_cons in Hnd as [Hafter _].
  rewrite addToCart_present.
  2: { rewrite map_app, elem_of_app. right. simpl. rewrite Hu. by left. }
  rewrite map_app. cbn [map]. rewrite <- Hu.
  rewrite !bump_others; [| done |].
  - f_equal. f_equal. unfold bump. by rewrite String.eqb_refl.
  - intros Hin. apply (Hbefore _ Hin). by left.
Qed.

(** C9. Adding a listing [L] twice to the empty cart gives one cart
    item for [L] with quantity 2 and the total [price L * 2]. In general,
    adding a product whose url is in the cart keeps every item in place
    with its listing, adds one to the quantity of the items with that url
    and leaves the other quantities alone; in a cart whose urls are
    pairwise different that is one item, whose quantity grows by one.
    Adding a product whose url is not in the cart appends it with
    quantity 1, and a cart whose urls are pairwise different keeps that
    property. *)
Theorem addToCart_twice_and_unique (L : Price) :
  addToCart L (addToCart L []) = [{| listing := L; quantity := 2 |}]
  /\ totalCartPrice (addToCart L (addToCart L [])) = (price L * 2)%Z
  /\ forall (product : Price) (prev : list CartItem),
       (url product ∈ map item_url prev ->
        addToCart product prev
        = map (fun i =>
                 {| listing := listing i;
                    quantity := if bool_decide (item_url i = url product)
                                then (quantity i + 1)%Z else quantity i |})
              prev)
       /\ (NoDup (map item_url prev) ->
           forall before existing after,
             prev = before ++ existing :: after ->
             item_url existing = url product ->
             addToCart product prev
             = before
               ++ {| listing := listing existing;
                     quantity := (quantity existing + 1)%Z |} :: after)
       /\ (url product ∉ map item_url prev ->
           addToCart product prev
           = prev ++ [{| listing := product; quantity := 1 |}])
       /\ (NoDup (map item_url prev) ->
           NoDup (map item_url (addToCart product prev))).
Proof.
  assert (addToCart L (addToCart L [])
          = [{| listing := L; quantity := 2 |}]) as Htwice.
  { unfold addToCart, JS.find, bump, item_url. simpl.
    by rewrite !String.eqb_refl. }
  split; [exact Htwice|]. split.
  - rewrite Htwice. unfold totalCartPrice. simpl. lia.
  - intros product prev. split; [|split; [|split]].
    + intros Hin. rewrite addToCart_present by done.
      apply map_ext. intros i. apply bump_spec.
    + intros Hnd before existing after -> Hu.
      by apply addToCart_one_item.
    + apply addToCart_absent.
    + apply addToCart_NoDup.
Qed.

Lemma addToCart_twice_and_unique_witness :
  (url leche ∉ map item_url [{| listing := yerba; quantity := 1 |}])
  /\ addToCart leche [{| listing := yerba; quantity := 1 |}]
     = [{| listing := yerba; quantity := 1 |};
        {| listing := leche; quantity := 1 |}]
  /\ addToCart yerba
       [{| listing := leche; quantity := 4 |};
        {| listing := yerba; quantity := 7 |}]
     = [{| listing := leche; quantity := 4 |};
        {| listing := yerba; quantity := 8 |}].
Proof.
  assert (url leche ∉ map item_url [{| listing := yerba; quantity := 1 |}])
    as Hout.
  { intros H. apply list_elem_of_singleton in H. discriminate H. }
  split; [exact Hout|]. split.
  - exact (proj1 (proj2 (proj2 (proj2 (proj2
             (addToCart_twice_and_unique yerba))
             leche [{| listing := yerba; quantity := 1 |}]))) Hout).
  - apply (proj1 (proj2 (proj2 (proj2 (addToCart_twice_and_unique yerba))
                           yerba
                           [{| listing := leche; quantity := 4 |};
                            {| listing := yerba; quantity := 7 |}])))
      with (before := [{| listing := leche; quantity := 4 |}])
           (existing := {| listing := yerba; quantity := 7 |})
           (after := @nil CartItem).
    + apply (bool_decide_unpack _). vm_compute. exact I.
    + reflexivity.
    + reflexivity.
Defined.

End Cart.

(** ** The search history *)

Module History.
Import HomeScreen Spec.

Lemma toLowerCase_empty (s : string) :
  JS.toLowerCase s = EmptyString <-> s = EmptyString.
Proof. by destruct s. Qed.

Lemma blank_false_trim (term : string) :
  blank term = false <-> JS.trim term <> EmptyString.
Proof.
  rewrite JSFacts.trim_empty. by destruct (blank term).
Qed.

Lemma other_term_spec (t e : string) :
  other_term t e = true <-> ~ same_term e t.
Proof.
  unfold other_term, same_term. rewrite negb_true_iff.
  apply String.eqb_neq.
Qed.

(** The history cell after a record depends on the cell alone. *)
Lemma saveToHistory_fst (term : string) (st : list string * Device) :
  fst (saveToHistory term st)
  = if JS.truthy (JS.trim term) then newHistory (JS.trim term) (fst st)
    else fst st.
Proof.
  destruct st as [h d]. unfold saveToHistory.
  destruct (JS.truthy (JS.trim term)); simpl; [|done].
  unfold setItem_history. by destruct (setItem_rejects d).
Qed.

Lemma saveToHistory_blank (term : string) (st : list string * Device) :
  blank term = true -> saveToHistory term st = st.
Proof.
  intros Hb. apply JSFacts.trim_empty in Hb.
  destruct st as [h d]. unfold saveToHistory. by rewrite Hb.
Qed.

Lemma newHistory_unfold (t : string) (h : list string) :
  newHistory t h = t :: take 19 (List.filter (other_term t) h).
Proof. reflexivity. Qed.

Lemma filter_all {A} (f : A -> bool) (l : list A) :
  Forall (fun x => f x = true) l -> List.filter f l = l.
Proof.
  induction 1 as [|x l Hx _ IH]; simpl; [done|]. by rewrite Hx, IH.
Qed.

Lemma Forall_List_filter {A} (f : A -> bool) (l : list A) :
  Forall (fun x => f x = true) (List.filter f l).
Proof.
  induction l as [|x l IH]; simpl; [done|].
  destruct (f x) eqn:Hx; [by constructor | done].
Qed.

Lemma newHistory_rest (t : string) (h : list string) :
  Forall (fun e => ~ same_term e t) (take 19 (List.filter (other_term t) h)).
Proof.
  apply Forall_take. eapply Forall_impl; [apply Forall_List_filter|].
  intros e. apply other_term_spec.
Qed.

Lemma newHistory_length (t : string) (h : list string) :
  length (newHistory t h) <= 20.
Proof. rewrite newHistory_unfold. simpl. rewrite length_take. lia. Qed.

(** Recording a term that differs, up to case, from all the terms at the
    front keeps that front, up to the bound. *)
Lemma newHistory_front (t : string) (R rest : list string) :
  Forall (fun e => ~ same_term e t) R ->
  exists rest', newHistory t (take 20 (R ++ rest)) = take 20 ((t :: R) ++ rest').
Proof.
  intros HR.
  exists (List.filter (other_term t) (take (20 - length R) rest)).
  rewrite newHistory_unfold, take_app, List.filter_app.
  rewrite (filter_all _ (take 20 R)).
  2: { apply Forall_take. eapply Forall_impl; [exact HR|].
       intros e. apply other_term_spec. }
  change (take 20 ((t :: R) ++ ?x)) with (t :: take 19 (R ++ x)).
  f_equal.
  destruct (decide (length R <= 20)) as [Hle|Hgt].
  - by rewrite (take_ge R 20).
  - rewrite !take_app_le by (rewrite ?length_take; lia).
    rewrite take_take. f_equal.
Qed.

Lemma recordAll_snoc (ts : list string) (t : string)
    (st : list string * Device) :
  recordAll (ts ++ [t]) st = saveToHistory t (recordAll ts st).
Proof. unfold recordAll. by rewrite fold_left_app. Qed.

(** After a run of non-blank terms that differ pairwise up to case, the
    history starts with those terms, the latest first. *)
Lemma recordAll_front (ts : list string) (st : list string * Device) :
  ts <> [] ->
  Forall (fun t => blank t = false) ts ->
  NoDup (map (fun t => JS.toLowerCase (JS.trim t)) ts) ->
  exists rest,
    fst (recordAll ts st) = take 20 (rev (map JS.trim ts) ++ rest).
Proof.
  induction ts as [|t ts IH] using rev_ind; intros Hne Hnb Hnd; [done|].
  apply Forall_app in Hnb as [Hnb Ht].
  apply Forall_inv, blank_false_trim in Ht.
  rewrite map_app in Hnd. apply NoDup_app in Hnd as (Hnd & Hfresh & _).
  rewrite recordAll_snoc, saveToHistory_fst.
  apply JSFacts.truthy_true in Ht. rewrite Ht.
  rewrite map_app, rev_app_distr. simpl.
  assert (Forall (fun e => ~ same_term e (JS.trim t))
            (rev (map JS.trim ts))) as Hother.
  { apply Forall_forall. intros e He Hsame.
    apply list_elem_of_In, in_rev, in_map_iff in He as [t0 [<- Hin]].
    apply (Hfresh (JS.toLowerCase (JS.trim t0))).
    - apply list_elem_of_In, in_map_iff. by exists t0.
    - rewrite Hsame. by left. }
  destruct ts as [|t1 ts1].
  - exists (take 19 (List.filter (other_term (JS.trim t)) (fst st))).
    simpl. rewrite newHistory_unfold. by rewrite take_take.
  - destruct (IH ltac:(done) Hnb Hnd) as [rest Hfst].
    rewrite Hfst. apply newHistory_front, Hother.
Qed.

(** C7. For every history and device: recording a blank term (empty or
    white space only) changes nothing; recording any other term puts the
    trimmed term at index 0, followed by the earlier entries that differ
    from it up to case, cut to 20 entries in all, and writes that list to
    the device when the write goes through; hence recording a term and
    then the same term up to case leaves one such entry, at index 0, and
    recording 21 terms that differ pairwise up to case and white space
    leaves exactly the last 20 of them, the latest first. *)
Theorem saveToHistory_record (searchHistory : list string) (d : Device) :
  (forall term, blank term = true ->
     saveToHistory term (searchHistory, d) = (searchHistory, d))
  /\ (forall term, blank term = false ->
        let after := saveToHistory term (searchHistory, d) in
        let rest :=
          take 19 (List.filter (other_term (JS.trim term)) searchHistory) in
        fst after = JS.trim term :: rest
        /\ Forall (fun e => ~ same_term e (JS.trim term)) rest
        /\ length (fst after) <= 20
        /\ (setItem_rejects d = false ->
            search_history (snd after) = Text (fst after)))
  /\ (forall t1 t2, blank t1 = false ->
        same_term (JS.trim t1) (JS.trim t2) ->
        exists rest,
          fst (saveToHistory t2 (saveToHistory t1 (searchHistory, d)))
          = JS.trim t2 :: rest
          /\ Forall (fun e => ~ same_term e (JS.trim t2)) rest)
  /\ (forall ts, length ts = 21 ->
        Forall (fun t => blank t = false) ts ->
        NoDup (map (fun t => JS.toLowerCase (JS.trim t)) ts) ->
        fst (recordAll ts (searchHistory, d))
        = take 20 (rev (map JS.trim ts))).
Proof.
  split; [intros term; apply saveToHistory_blank|].
  split; [|split].
  - intros term Hb after rest. subst after rest.
    apply blank_false_trim, JSFacts.truthy_true in Hb.
    rewrite saveToHistory_fst, Hb. simpl fst.
    split; [apply newHistory_unfold|].
    split; [apply newHistory_rest|].
    split; [apply newHistory_length|].
    intros Hw. unfold saveToHistory, setItem_history. by rewrite Hb, Hw.
  - intros t1 t2 Hb Hsame.
    assert (JS.truthy (JS.trim t2) = true) as Ht2.
    { apply JSFacts.truthy_true. intros He.
      apply blank_false_trim in Hb. apply Hb.
      apply toLowerCase_empty. unfold same_term in Hsame.
      by rewrite Hsame, He. }
    rewrite saveToHistory_fst, Ht2, newHistory_unfold.
    eexists. split; [reflexivity | apply newHistory_rest].
  - intros ts Hlen Hnb Hnd.
    destruct (recordAll_front ts (searchHistory, d)) as [rest Hr];
      [by destruct ts | done | done |].
    rewrite Hr. apply take_app_le.
    rewrite length_rev, length_map. lia.
Qed.

Lemma saveToHistory_record_witness :
  blank " Yerba " = false
  /\ same_term (JS.trim " Yerba ") (JS.trim "YERBA")
  /\ (exists rest,
        fst (saveToHistory "YERBA"
               (saveToHistory " Yerba " (["leche"; "yerba"], device0)))
        = "YERBA" :: rest
        /\ Forall (fun e => ~ same_term e "YERBA") rest)
  /\ fst (recordAll terms21 (["leche"; "yerba"], device0))
     = take 20 (rev (map JS.trim terms21)).
Proof.
  split; [reflexivity|]. split; [reflexivity|]. split.
  - apply (proj1 (proj2 (proj2
             (saveToHistory_record ["leche"; "yerba"] device0)))
             " Yerba " "YERBA"); reflexivity.
  - apply (proj2 (proj2 (proj2
             (saveToHistory_record ["leche"; "yerba"] device0)))
             terms21).
    + reflexivity.
    + apply Forall_forall. intros t Ht.
      repeat (apply elem_of_cons in Ht as [->|Ht]; [reflexivity|]).
      by apply elem_of_nil in Ht.
    + apply (bool_decide_unpack _). vm_compute. exact I.
Defined.

End History.

(** ** Saving the cart as a list *)

Module SavedLists.
Import HomeScreen Spec.

Lemma alert_keeps_cells (title msg : string) (s : Lists) :
  cart (alert title msg s) = cart s
  /\ listName (alert title msg s) = listName s
  /\ isListModalOpen (alert title msg s) = isListModalOpen s.
Proof. done. Qed.

(** C8. For every state of the list modal and of the device, saving
    with a name that is empty or made of white space only shows the
    alert "Ponle un nombre a tu lista" under the title "Error" and does
    nothing else: the cells keep their values and the device is the one
    before, with no write added. *)
Theorem saveListToDevice_blank_name (clock : Clock) (s : Lists)
    (d : Device) :
  blank (listName s) = true ->
  saveListToDevice clock (s, d)
  = (alert "Error" "Ponle un nombre a tu lista" s, d)
  /\ writes (snd (saveListToDevice clock (s, d))) = writes d
  /\ my_lists (snd (saveListToDevice clock (s, d))) = my_lists d
  /\ cart (fst (saveListToDevice clock (s, d))) = cart s.
Proof.
  intros Hb. apply JSFacts.trim_empty in Hb.
  unfold saveListToDevice. by rewrite Hb.
Qed.

Lemma saveListToDevice_blank_name_witness :
  blank (listName (modal_named "   ")) = true
  /\ saveListToDevice clock0 (modal_named "   ", device0)
     = (alert "Error" "Ponle un nombre a tu lista" (modal_named "   "),
        device0).
Proof.
  split; [reflexivity|].
  exact (proj1 (saveListToDevice_blank_name clock0 (modal_named "   ")
                  device0 eq_refl)).
Defined.

(** C10. For every state whose list name is not blank: when the read of
    the saved lists and the write both go through, the save stores the
    new list in front of the earlier ones, empties the cart, resets the
    name to the empty string, closes the modal and shows the success
    alert; when the read, the parse or the write fails, the cart, the
    name and the device are left as they were and the only effect is the
    alert "Error al guardar". *)
Theorem saveListToDevice_outcomes (clock : Clock) (s : Lists) (d : Device) :
  blank (listName s) = false ->
  (forall prevLists,
     read_lists d = inr prevLists -> setItem_rejects d = false ->
     let after := saveListToDevice clock (s, d) in
     cart (fst after) = []
     /\ listName (fst after) = EmptyString
     /\ isListModalOpen (fst after) = false
     /\ alerts (fst after) = alerts s ++ [(success_title, "Lista guardada")]
     /\ my_lists (snd after) = Text (newList clock s :: prevLists)
     /\ writes (snd after)
        = writes d ++ [WriteLists (newList clock s :: prevLists)])
  /\ ((exists e, read_lists d = inl e) \/ setItem_rejects d = true ->
      let after := saveListToDevice clock (s, d) in
      after = (alert "Error" "Error al guardar" s, d)
      /\ cart (fst after) = cart s
      /\ listName (fst after) = listName s).
Proof.
  intros Hb. apply History.blank_false_trim, JSFacts.truthy_true in Hb.
  split.
  - intros prevLists Hread Hw after. subst after.
    unfold saveListToDevice, setItem_lists. by rewrite Hb, Hread, Hw.
  - intros Hfail after. subst after.
    unfold saveListToDevice, setItem_lists. rewrite Hb. simpl.
    destruct Hfail as [[e He] | Hw].
    + by rewrite He.
    + rewrite Hw. by destruct (read_lists d).
Qed.

Lemma saveListToDevice_outcomes_witness :
  blank (listName (modal_named "Compras Mes")) = false
  /\ (cart (fst (saveListToDevice clock0
                   (modal_named "Compras Mes", device0))) = []
      /\ listName (fst (saveListToDevice clock0
                          (modal_named "Compras Mes", device0)))
         = EmptyString)
  /\ saveListToDevice clock0 (modal_named "Compras Mes", device_full)
     = (alert "Error" "Error al guardar" (modal_named "Compras Mes"),
        device_full).
Proof.
  split; [reflexivity|]. split.
  - pose proof (proj1 (saveListToDevice_outcomes clock0
                         (modal_named "Compras Mes") device0 eq_refl)
                  [] eq_refl eq_refl) as H.
    exact (conj (proj1 H) (proj1 (proj2 H))).
  - exact (proj1 (proj2 (saveListToDevice_outcomes clock0
                           (modal_named "Compras Mes") device_full eq_refl)
                    (or_intror eq_refl))).
Defined.

End SavedLists.

(** ** The client and the poller *)

Module Poller.
Import HomeScreen Spec.

(** A response that is not [ok] makes the client throw the generic
    error. *)
Lemma searchProduct_not_ok {B} (fetch : Client.Request -> Client.Fetched B)
    (res : Client.Response B) (query city province : string) :
  fetch {| Client.q := query; Client.userCity := city;
           Client.userProvince := province |} = Client.Resolved res ->
  Client.ok res = false ->
  Client.searchProduct fetch query city province
  = inl (JS.new_Error "Search failed").
Proof.
  intros Hf Hok. unfold Client.searchProduct. by rewrite Hf, Hok.
Qed.

(** On a response built by the platform the test for 429 is never
    reached with a positive outcome. *)
Lemma searchProduct_from_server {B}
    (fetch : Client.Request -> Client.Fetched B)
    (res : Client.Response B) (query city province : string) :
  fetch {| Client.q := query; Client.userCity := city;
           Client.userProvince := province |} = Client.Resolved res ->
  Client.from_server res ->
  Client.searchProduct fetch query city province
  = if Client.ok res then Client.json res
    else inl (JS.new_Error "Search failed").
Proof.
  intros Hf Hwf. unfold Client.searchProduct. rewrite Hf.
  destruct (Client.ok res) eqn:Hok; simpl; [|done].
  unfold Client.from_server, Client.ok_status in Hwf. rewrite Hok in Hwf.
  symmetry in Hwf. apply andb_true_iff in Hwf as [H1 H2].
  apply Z.leb_le in H1, H2.
  destruct (Z.eqb_spec (Client.status res) 429) as [He|_]; [lia | done].
Qed.

(** The test of the poller does not recognise the messages the client
    throws. *)
Lemma client_errors_not_rate_limit :
  is_rate_limit (JS.new_Error "Search failed") = false
  /\ is_rate_limit (JS.new_Error "Rate limit exceeded. Try again later.")
     = false.
Proof. split; reflexivity. Qed.

(** The branch of the poller for a rate limit, when an error with the
    text it looks for does arrive. *)
Lemma pollSearch_busy (fetch : Client.Request -> Client.Fetched SearchResponse)
    (err : JS.Error) (query city province : string) (s : Search) :
  Client.searchProduct fetch query city province = inl err ->
  is_rate_limit err = true ->
  pollSearch fetch query city province s
  = setTimeout {| Client.q := query; Client.userCity := city;
                  Client.userProvince := province |} 10000
      (setStatusMessage
         (Some "Servidor ocupado, reintentando en breve...") s).
Proof. intros He Hr. unfold pollSearch. by rewrite He, Hr. Qed.

(** The earlier screen ends the search on EMPTY. *)
Lemma legacy_pollSearch_EMPTY (msg : option string)
    (res : option (list Price)) (query : string) (s : Search) :
  Legacy.pollSearch
    (fun _ => Client.Resolved (Client.respond 200 (body_of "EMPTY" msg res)))
    query s
  = setLoading false (setData [] s).
Proof. reflexivity. Qed.

(** A rejected fetch whose message carries the text the poller looks
    for is retried after 10000 ms, and the COMPLETED response that
    follows ends the search with the duplicates removed. *)
Lemma pollChain_busy_then_completed (query city province : string) :
  pollChain
    [(fun _ => Client.Rejected (JS.new_Error "Too many requests"));
     answers 200 (body_of "COMPLETED" None (Some [yerba; yerba; leche]))]
    {| Client.q := query; Client.userCity := city;
       Client.userProvince := province |}
    (searching city)
  = {| data := [yerba; leche]; loading := false; error := None;
       statusMessage := None; timers := [] |}.
Proof. reflexivity. Qed.

(** C2. The client on a response with status 429, as the platform
    builds it: the test [!res.ok] comes first, so the error thrown is the
    generic "Search failed" and not the one for the rate limit. *)
Theorem searchProduct_429_generic {B} (body : JS.Error + B)
    (query city province : string) :
  Client.searchProduct
    (fun _ => Client.Resolved (Client.respond 429 body))
    query city province
  = inl (JS.new_Error "Search failed").
Proof. reflexivity. Qed.

(** C1. The poller on a response with status 429: the error cell is set
    to "Search failed", loading ends and no retry is scheduled, so the
    COMPLETED response that the server would give next is never asked
    for and the search does not complete. The error that the client
    keeps for the rate limit would fare no better: were it thrown (a
    response marked [ok] with status 429), the poller would put its
    message into the error cell as well. *)
Theorem pollSearch_429_sets_error (body : JS.Error + SearchResponse)
    (query city province : string) (s : Search) :
  pollSearch (answers 429 body) query city province s
  = setLoading false (setError (Some "Search failed") s)
  /\ pollChain
       [answers 429 body;
        answers 200 (body_of "COMPLETED" None (Some [yerba; leche]))]
       {| Client.q := query; Client.userCity := city;
          Client.userProvince := province |}
       (searching city)
     = {| data := []; loading := false; error := Some "Search failed";
          statusMessage := Some ("Buscando en " +:+ city +:+ "...");
          timers := [] |}
  /\ pollSearch
       (fun _ => Client.Resolved
                   {| Client.ok := true; Client.status := 429;
                      Client.json := body |})
       query city province s
     = setLoading false
         (setError (Some "Rate limit exceeded. Try again later.") s).
Proof. repeat split; reflexivity. Qed.

(** C3. The poller of the current screen on a response with status
    EMPTY: no branch applies, the cells are left as they are, and a
    search that was loading keeps loading. *)
Theorem pollSearch_EMPTY_keeps_loading (msg : option string)
    (res : option (list Price)) (query city province : string)
    (s : Search) :
  pollSearch (answers 200 (body_of "EMPTY" msg res)) query city province s
  = s
  /\ loading
       (pollChain [answers 200 (body_of "EMPTY" msg res)]
          {| Client.q := query; Client.userCity := city;
             Client.userProvince := province |}
          (searching city))
     = true.
Proof. split; reflexivity. Qed.

End Poller.

(** ** More about the result deriver: order, facets, check boxes *)

Module DeriverExtra.
Import HomeScreen Spec.

Lemma in_order_byPrice (asc : bool) (a b : Price) :
  in_order asc a b <-> (byPrice asc a b <= 0)%Z.
Proof. unfold in_order, byPrice. destruct asc; lia. Qed.

Lemma sort_insert_sorted (asc : bool) (x : Price) (l : list Price) :
  StronglySorted (in_order asc) l ->
  StronglySorted (in_order asc) (JS.sort_insert (byPrice asc) x l).
Proof.
  induction 1 as [|y l Hl IH Hy]; simpl.
  - repeat constructor.
  - destruct (byPrice asc x y <=? 0)%Z eqn:Hc.
    + apply Z.leb_le in Hc. constructor; [by constructor|].
      constructor; [by apply in_order_byPrice|].
      eapply Forall_impl; [exact Hy|]. intros z Hz. simpl in Hz.
      apply in_order_byPrice in Hz. apply in_order_byPrice.
      unfold byPrice in *. destruct asc; lia.
    + apply Z.leb_gt in Hc. constructor; [exact IH|].
      rewrite Deriver.sort_insert_perm. constructor; [|exact Hy].
      apply in_order_byPrice. unfold byPrice in *. destruct asc; lia.
  Qed.

Lemma sort_sorted (asc : bool) (l : list Price) :
  StronglySorted (in_order asc) (JS.sort (byPrice asc) l).
Proof.
  induction l as [|x l IH]; simpl; [constructor|].
  by apply sort_insert_sorted.
Qed.

(** X1. The list shown is in the order of the toggle: every listing
    costs at most (upwards) or at least (downwards) as much as every
    listing after it. *)
Theorem filtered_in_order (data : list Price) (f : Filters) :
  StronglySorted (in_order (sortAsc f)) (filtered data f).
Proof. apply sort_sorted. Qed.

Lemma sort_insert_stable (asc : bool) (v : Z) (x : Price) (l : list Price) :
  List.filter (costs v) (JS.sort_insert (byPrice asc) x l)
  = List.filter (costs v) (x :: l).
Proof.
  induction l as [|y l IH]; [done|]. cbn [JS.sort_insert].
  destruct (byPrice asc x y <=? 0)%Z eqn:Hc; [done|].
  apply Z.leb_gt in Hc. cbn [List.filter] in *. rewrite IH.
  destruct (costs v y) eqn:Hy, (costs v x) eqn:Hx; try done.
  unfold costs in Hx, Hy. apply Z.eqb_eq in Hx, Hy.
  unfold byPrice in Hc. destruct asc; lia.
Qed.

Lemma sort_stable (asc : bool) (v : Z) (l : list Price) :
  List.filter (costs v) (JS.sort (byPrice asc) l) = List.filter (costs v) l.
Proof.
  induction l as [|x l IH]; [done|]. cbn [JS.sort foldr].
  fold (JS.sort (byPrice asc) l). rewrite sort_insert_stable.
  cbn [List.filter]. by rewrite IH.
Qed.

(** X2. Sorting is stable in both directions: for every price, the
    listings shown at that price are the kept listings at that price, in
    the order of the result set. *)
Theorem filtered_stable (data : list Price) (f : Filters) (v : Z) :
  List.filter (fun p => (price p =? v)%Z) (filtered data f)
  = List.filter (fun p => (price p =? v)%Z) (List.filter (keep f) data).
Proof. apply (sort_stable (sortAsc f) v). Qed.

Lemma NoDup_map_List_filter {A B} (g : A -> B) (f : A -> bool) (l : list A) :
  NoDup (map g l) -> NoDup (map g (List.filter f l)).
Proof.
  induction l as [|x l IH]; simpl; [done|].
  intros [Hx Hl]%NoDup_cons. destruct (f x); simpl; [|by apply IH].
  apply NoDup_cons. split; [|by apply IH].
  intros Hin. apply Hx.
  apply list_elem_of_In, in_map_iff in Hin as [y [Hy Hin]].
  apply filter_In in Hin as [Hin _].
  apply list_elem_of_In, in_map_iff. by exists y.
Qed.

(** X3. When the urls of the result set are pairwise different, so are
    the urls of the list shown, which the list uses as keys. *)
Theorem filtered_keys_unique (data : list Price) (f : Filters) :
  NoDup (map url data) -> NoDup (map url (filtered data f)).
Proof.
  intros Hnd.
  assert (map url (filtered data f) ≡ₚ map url (List.filter (keep f) data))
    as Hp by apply Permutation_map, Deriver.filtered_perm.
  rewrite Hp. by apply NoDup_map_List_filter.
Qed.

Lemma filtered_keys_unique_witness :
  NoDup (map url (filtered [yerba; leche] (no_filters true))).
Proof.
  apply filtered_keys_unique.
  apply (bool_decide_unpack _). vm_compute. exact I.
Defined.

(** X4. With no brand, no store and no item ticked the list shown is a
    rearrangement of the whole result set: nothing is hidden, nothing is
    doubled. *)
Theorem filtered_no_selection (data : list Price) (f : Filters) :
  selectedBrands f = [] -> selectedStores f = [] -> selectedItems f = [] ->
  filtered data f ≡ₚ data.
Proof.
  intros Hb Hs Hi. rewrite Deriver.filtered_perm.
  rewrite History.filter_all; [done|].
  apply Forall_forall. intros p _.
  unfold keep, brandOk, storeOk, itemOk. by rewrite Hb, Hs, Hi.
Qed.

Lemma filtered_no_selection_witness :
  filtered [yerba; leche] (no_filters false) ≡ₚ [yerba; leche].
Proof. by apply filtered_no_selection. Defined.

Lemma fold_set_add_prefix (l acc : list string) :
  acc `prefix_of` fold_left JS.set_add l acc.
Proof.
  revert acc. induction l as [|x l IH]; intros acc; simpl; [done|].
  etrans; [|apply IH]. unfold JS.set_add.
  destruct (JS.array_includes acc x); [done | by apply prefix_app_r].
Qed.

Lemma fold_set_add_elem (l acc : list string) (x : string) :
  x ∈ fold_left JS.set_add l acc <-> x ∈ acc \/ x ∈ l.
Proof.
  revert acc. induction l as [|y l IH]; intros acc; simpl.
  - rewrite elem_of_nil. tauto.
  - rewrite IH, elem_of_cons. unfold JS.set_add.
    destruct (JS.array_includes acc y) eqn:Hy.
    + apply JSFacts.array_includes_spec in Hy.
      split; [tauto | intros [?|[->|?]]; tauto].
    + rewrite elem_of_app, list_elem_of_singleton. tauto.
Qed.

Lemma fold_set_add_NoDup (l acc : list string) :
  NoDup acc -> NoDup (fold_left JS.set_add l acc).
Proof.
  revert acc. induction l as [|y l IH]; intros acc Hnd; simpl; [done|].
  apply IH. unfold JS.set_add.
  destruct (JS.array_includes acc y) eqn:Hy; [done|].
  apply NoDup_app. split; [done|]. split; [|apply NoDup_singleton].
  intros z Hz ->%list_elem_of_singleton.
  apply JSFacts.array_includes_spec in Hz. congruence.
Qed.

Lemma from_Set_first_appearance (g : Price -> string) :
  first_appearance g (fun data => JS.from_Set (map g data)).
Proof.
  intros data. unfold JS.from_Set. split; [|split].
  - apply fold_set_add_NoDup, NoDup_nil_2.
  - intros x. rewrite fold_set_add_elem, elem_of_nil, list_elem_of_fmap.
    split.
    + intros [[]|[p [-> Hp]]]. by exists p.
    + intros [p [Hp <-]]. right. by exists p.
  - intros more. rewrite map_app, fold_left_app. apply fold_set_add_prefix.
Qed.

(** X5. The three facets list the stores, the brands and the first
    words of the product names of the result set, each value once, in the
    order in which the values first appear. *)
Theorem facets_first_appearance :
  first_appearance store storeFilter
  /\ first_appearance brand brandFilter
  /\ first_appearance first_word itemsFilter.
Proof. repeat split; apply from_Set_first_appearance. Qed.

Lemma only_brand_shown (data : list Price) (b : string) (asc : bool)
    (p : Price) :
  p ∈ filtered data (only_brand b asc) <-> p ∈ data /\ brand p = b.
Proof.
  rewrite Deriver.filtered_perm, Deriver.elem_of_List_filter.
  unfold keep, storeOk, itemOk. simpl. rewrite !andb_true_r.
  rewrite Deriver.brandOk_spec. simpl. rewrite list_elem_of_singleton.
  split; intros [? H]; (split; [done|]); [by destruct H | by right].
Qed.

Lemma only_store_shown (data : list Price) (st : string) (asc : bool)
    (p : Price) :
  p ∈ filtered data (only_store st asc) <-> p ∈ data /\ store p = st.
Proof.
  rewrite Deriver.filtered_perm, Deriver.elem_of_List_filter.
  unfold keep, brandOk, itemOk. simpl. rewrite !andb_true_r.
  rewrite Deriver.storeOk_spec. simpl. rewrite list_elem_of_singleton.
  split; intros [? H]; (split; [done|]); [by destruct H | by right].
Qed.

(** X6. A box offered by a facet never empties the list: ticking one
    brand of [brandFilter], or one store of [storeFilter], alone shows
    exactly the listings of that brand, or store, and at least one. *)
Theorem facet_box_not_empty (data : list Price) (asc : bool) :
  (forall b, b ∈ brandFilter data ->
     filtered data (only_brand b asc) <> []
     /\ forall p, p ∈ filtered data (only_brand b asc)
                  <-> p ∈ data /\ brand p = b)
  /\ (forall st, st ∈ storeFilter data ->
        filtered data (only_store st asc) <> []
        /\ forall p, p ∈ filtered data (only_store st asc)
                     <-> p ∈ data /\ store p = st).
Proof.
  split.
  - intros b Hb. split; [|intros p; apply only_brand_shown].
    apply (from_Set_first_appearance brand data) in Hb as [p Hp].
    apply (proj2 (only_brand_shown data b asc p)) in Hp.
    intros He. rewrite He in Hp. by apply elem_of_nil in Hp.
  - intros st Hst. split; [|intros p; apply only_store_shown].
    apply (from_Set_first_appearance store data) in Hst as [p Hp].
    apply (proj2 (only_store_shown data st asc p)) in Hp.
    intros He. rewrite He in Hp. by apply elem_of_nil in Hp.
Qed.

Lemma facet_box_not_empty_witness :
  "Playadito" ∈ brandFilter [yerba; leche]
  /\ filtered [yerba; leche] (only_brand "Playadito" true) <> [].
Proof.
  assert ("Playadito" ∈ brandFilter [yerba; leche]) as Hin by by left.
  split; [exact Hin|].
  exact (proj1 (proj1 (facet_box_not_empty [yerba; leche] true)
                  "Playadito" Hin)).
Defined.

End DeriverExtra.

(** ** The check boxes and the first words *)

Module Boxes.
Import HomeScreen Spec.

Lemma split_space_prefix (s : string) :
  exists r, s = fst (JS.split_space s) +:+ r.
Proof.
  induction s as [|c s [r IH]]; [by exists EmptyString|].
  cbn [JS.split_space]. destruct (JS.split_space s) as [h t].
  destruct (JS.code c =? 32)%N; simpl in *.
  - by exists (String c s).
  - exists r. by rewrite IH at 1.
Qed.

Lemma toLowerCase_app (a b : string) :
  JS.toLowerCase (a +:+ b) = JS.toLowerCase a +:+ JS.toLowerCase b.
Proof.
  induction a as [|c a IH]; [done|].
  rewrite JSFacts.append_String. simpl. by rewrite IH.
Qed.

(** X7. Every listing passes the item test of its own facet value: the
    first word of each product name is offered by [itemsFilter], and once
    it is among the selected items the listing is kept by the item test,
    whatever the case of the selected word. *)
Theorem first_word_box_keeps (data : list Price) (f : Filters) (p : Price) :
  p ∈ data ->
  first_word p ∈ itemsFilter data
  /\ (first_word p ∈ selectedItems f -> itemOk f p = true).
Proof.
  intros Hp. split.
  - apply (DeriverExtra.from_Set_first_appearance first_word data).
    by exists p.
  - intros Hsel. apply Deriver.itemOk_spec. right.
    exists (first_word p). split; [done|].
    destruct (split_space_prefix (product_name p)) as [r Hr].
    exists EmptyString, (JS.toLowerCase r).
    rewrite Hr at 1. by rewrite toLowerCase_app.
Qed.

Lemma first_word_box_keeps_witness :
  first_word yerba = "Yerba"
  /\ itemOk {| selectedBrands := []; selectedStores := [];
               selectedItems := ["Yerba"]; sortAsc := true |} yerba = true.
Proof.
  split; [reflexivity|].
  apply (first_word_box_keeps [yerba; leche]); by left.
Defined.

Lemma elem_of_drop_box (b x : string) (prev : list string) :
  x ∈ List.filter (fun y => negb (String.eqb y b)) prev
  <-> x ∈ prev /\ x <> b.
Proof.
  rewrite Deriver.elem_of_List_filter, negb_true_iff.
  by rewrite String.eqb_neq.
Qed.

(** X8. Pressing a check box flips it and nothing else: afterwards the
    value is selected iff it was not, every other value is selected iff
    it was, a selection without repeats stays without repeats, and
    pressing twice a box that was clear gives back the same selection. *)
Theorem toggle_flips (b : string) (prev : list string) :
  (b ∈ toggle b prev <-> b ∉ prev)
  /\ (forall x, x <> b -> (x ∈ toggle b prev <-> x ∈ prev))
  /\ (NoDup prev -> NoDup (toggle b prev))
  /\ (b ∉ prev -> toggle b (toggle b prev) = prev).
Proof.
  unfold toggle at 1 2 3.
  destruct (JS.array_includes prev b) eqn:Hb.
  - apply JSFacts.array_includes_spec in Hb. split; [|split; [|split]].
    + rewrite elem_of_drop_box. tauto.
    + intros x Hx. rewrite elem_of_drop_box. tauto.
    + intros Hnd. rewrite <- (map_id (List.filter _ prev)).
      apply DeriverExtra.NoDup_map_List_filter. by rewrite map_id.
    + done.
  - assert (b ∉ prev) as Hout.
    { intros H. apply JSFacts.array_includes_spec in H. congruence. }
    split; [|split; [|split]].
    + rewrite elem_of_app, list_elem_of_singleton. tauto.
    + intros x Hx. rewrite elem_of_app, list_elem_of_singleton. tauto.
    + intros Hnd. apply NoDup_app. split; [done|].
      split; [|apply NoDup_singleton].
      by intros x Hx ->%list_elem_of_singleton.
    + intros _. unfold toggle. rewrite Hb.
      assert (JS.array_includes (prev ++ [b]) b = true) as ->.
      { apply JSFacts.array_includes_spec, elem_of_app. right. by left. }
      rewrite List.filter_app. simpl. rewrite String.eqb_refl. simpl.
      rewrite app_nil_r. apply History.filter_all, Forall_forall.
      intros x Hx. apply negb_true_iff, String.eqb_neq. by intros ->.
Qed.

Lemma toggle_flips_witness :
  toggle "Coto" (toggle "Coto" ["Carrefour"]) = ["Carrefour"]
  /\ NoDup (toggle "Coto" ["Carrefour"]).
Proof.
  split.
  - apply (toggle_flips "Coto" ["Carrefour"]).
    intros H. apply list_elem_of_singleton in H. discriminate H.
  - apply (toggle_flips "Coto" ["Carrefour"]).
    apply NoDup_singleton.
Defined.

End Boxes.

(** ** More about the duplicate filter and the poller *)

Module PollerExtra.
Import HomeScreen Spec.

Lemma existsb_has_url_false (u : string) (pre : list Price) :
  u ∉ map url pre -> existsb (has_url u) pre = false.
Proof.
  intros Hout. destruct (existsb (has_url u) pre) eqn:He; [|done].
  apply existsb_exists in He as [y [Hy Hu]]. exfalso. apply Hout.
  apply String.eqb_eq in Hu. subst u.
  apply list_elem_of_In, in_map_iff. by exists y.
Qed.

Lemma unique_from_id (pre l : list Price) :
  NoDup (map url (pre ++ l)) -> unique_from pre l = l.
Proof.
  revert pre. induction l as [|x l IH]; intros pre Hnd; [done|].
  rewrite Dedupe.unique_from_cons.
  assert (existsb (has_url (url x)) pre = false) as ->.
  { apply existsb_has_url_false. rewrite map_app in Hnd. simpl in Hnd.
    apply NoDup_app in Hnd as (_ & Hd & _). intros Hin.
    apply (Hd _ Hin). by left. }
  f_equal. apply IH. by rewrite <- app_assoc.
Qed.

(** X9. The duplicate filter changes nothing on a list whose urls are
    pairwise different, and only on such lists; so filtering twice is
    filtering once. *)
Theorem uniqueResults_fixpoint (R : list Price) :
  (uniqueResults R = R <-> NoDup (map url R))
  /\ uniqueResults (uniqueResults R) = uniqueResults R.
Proof.
  assert (forall L, NoDup (map url L) -> uniqueResults L = L) as Hid.
  { intros L HL. rewrite Dedupe.uniqueResults_unique_from.
    by apply unique_from_id. }
  pose proof (Dedupe.unique_from_NoDup [] R) as Hnd.
  rewrite <- Dedupe.uniqueResults_unique_from in Hnd.
  split; [split; [by intros <- | apply Hid] | by apply Hid].
Qed.

(** X10. Polling keeps the urls of the result set pairwise different:
    whatever the network answers, if the cell [data] had no two listings
    with one url before an activation of [pollSearch], it has none
    after. *)
Theorem pollSearch_keeps_unique
    (fetch : Client.Request -> Client.Fetched SearchResponse)
    (query city province : string) (s : Search) :
  NoDup (map url (data s)) ->
  NoDup (map url (data (pollSearch fetch query city province s))).
Proof.
  intros Hnd. unfold pollSearch.
  destruct (Client.searchProduct fetch query city province) as [err|r].
  - by destruct (is_rate_limit err).
  - destruct (String.eqb (status r) "COMPLETED"); simpl.
    + rewrite Dedupe.uniqueResults_unique_from.
      apply Dedupe.unique_from_NoDup.
    + by destruct (String.eqb (status r) "STARTED"
                   || String.eqb (status r) "PROCESSING").
Qed.

Lemma pollSearch_keeps_unique_witness :
  NoDup (map url
           (data (pollSearch
                    (answers 200
                       (body_of "COMPLETED" None (Some [yerba; yerba])))
                    "yerba" "MAR_DEL_PLATA" "BUENOS_AIRES"
                    (searching "MAR_DEL_PLATA")))).
Proof. apply pollSearch_keeps_unique. apply NoDup_nil_2. Defined.

(** X11. What one activation of [pollSearch] can do to the cells: it
    never turns loading on, and it either schedules nothing or schedules
    one retry, after 4000 or 10000 ms, for the very query, city and
    province it was called with, in which case loading, error and data
    are left as they were. *)
Theorem pollSearch_frame
    (fetch : Client.Request -> Client.Fetched SearchResponse)
    (query city province : string) (s : Search) :
  let s' := pollSearch fetch query city province s in
  (loading s' = true -> loading s = true)
  /\ (timers s' = timers s
      \/ exists ms, (ms = 4000 \/ ms = 10000)%Z
           /\ timers s'
              = timers s
                ++ [{| callback := {| Client.q := query;
                                       Client.userCity := city;
                                       Client.userProvince := province |};
                       delay := ms |}]
           /\ loading s' = loading s /\ error s' = error s
           /\ data s' = data s).
Proof.
  unfold pollSearch.
  destruct (Client.searchProduct fetch query city province) as [err|r].
  - destruct (is_rate_limit err); simpl; split; try done.
    + right. exists 10000%Z. split; [by right | done].
    + by left.
  - destruct (String.eqb (status r) "COMPLETED"); simpl.
    + split; [done | by left].
    + destruct (String.eqb (status r) "STARTED"
                || String.eqb (status r) "PROCESSING"); simpl.
      * split; [done|]. right. exists 4000%Z. split; [by left | done].
      * split; [done | by left].
Qed.

Lemma pollSearch_frame_witness :
  loading
    (pollSearch (answers 200 (body_of "PROCESSING" None None))
       "yerba" "MAR_DEL_PLATA" "BUENOS_AIRES" (searching "MAR_DEL_PLATA"))
  = true
  /\ loading (searching "MAR_DEL_PLATA") = true.
Proof.
  split; [reflexivity|].
  apply (proj1 (pollSearch_frame
                  (answers 200 (body_of "PROCESSING" None None))
                  "yerba" "MAR_DEL_PLATA" "BUENOS_AIRES"
                  (searching "MAR_DEL_PLATA"))).
  reflexivity.
Defined.

Lemma pollSearch_progress (b : SearchResponse) (rq : Client.Request)
    (s : Search) :
  in_progress b ->
  pollSearch (answers 200 (inr b)) (Client.q rq) (Client.userCity rq)
    (Client.userProvince rq) s
  = setTimeout rq 4000
      (setStatusMessage
         (Some (JS.or_default (message b) "Buscando mejores precios...")) s).
Proof.
  intros Hb. unfold pollSearch, answers. simpl.
  destruct rq as [q c p]. simpl.
  by destruct Hb as [-> | ->].
Qed.

(** X12. A poll chain that meets any number of STARTED or PROCESSING
    bodies and then a COMPLETED body ends the search: from cells with no
    pending timer it reaches loading off, no status message, no timer, the
    error as it was, and as data the results of the last body with their
    duplicates removed (the empty list when the body has no results). *)
Theorem pollChain_completes (bodies : list SearchResponse)
    (msg : option string) (res : option (list Price))
    (rq : Client.Request) (s : Search) :
  Forall in_progress bodies ->
  timers s = [] ->
  pollChain (serves bodies ++ [answers 200 (body_of "COMPLETED" msg res)])
    rq s
  = {| data := uniqueResults (default [] res); loading := false;
       error := error s; statusMessage := None; timers := [] |}.
Proof.
  intros Hb. revert s. induction Hb as [|b bodies Hp _ IH]; intros s Ht.
  - simpl. destruct rq as [q c p]. unfold pollSearch. simpl. rewrite Ht.
    unfold setStatusMessage, setLoading, setData. simpl. by rewrite Ht.
  - cbn [serves map app pollChain]. rewrite pollSearch_progress by done.
    cbn [timers setTimeout setStatusMessage]. rewrite Ht.
    cbn [app callback]. fold (serves bodies). by rewrite IH.
Qed.

Lemma pollChain_completes_witness :
  pollChain
    (serves [{| status := "STARTED"; message := None; results := None |};
             {| status := "PROCESSING"; message := Some "Buscando...";
                results := None |}]
     ++ [answers 200 (body_of "COMPLETED" None (Some [yerba; leche; yerba]))])
    {| Client.q := "yerba"; Client.userCity := "MAR_DEL_PLATA";
       Client.userProvince := "BUENOS_AIRES" |}
    (searching "MAR_DEL_PLATA")
  = {| data := [yerba; leche]; loading := false; error := None;
       statusMessage := None; timers := [] |}.
Proof.
  apply (pollChain_completes _ None (Some [yerba; leche; yerba])).
  - constructor; [by left|]. constructor; [by right|]. constructor.
  - reflexivity.
Defined.

(** X13. On a response as the platform builds it, the status range
    alone decides what the client does: with a status in 200..299 it
    hands back the outcome of [res.json()], parse errors included, and
    with any other status it throws "Search failed"; a rejected fetch is
    passed on as it is. *)
Theorem searchProduct_by_status {B}
    (fetch : Client.Request -> Client.Fetched B)
    (query city province : string) :
  (forall e,
     fetch {| Client.q := query; Client.userCity := city;
              Client.userProvince := province |} = Client.Rejected e ->
     Client.searchProduct fetch query city province = inl e)
  /\ (forall res,
        fetch {| Client.q := query; Client.userCity := city;
                 Client.userProvince := province |} = Client.Resolved res ->
        Client.from_server res ->
        ((200 <= Client.status res <= 299)%Z ->
         Client.searchProduct fetch query city province = Client.json res)
        /\ (~ (200 <= Client.status res <= 299)%Z ->
            Client.searchProduct fetch query city province
            = inl (JS.new_Error "Search failed"))).
Proof.
  split.
  - intros e He. unfold Client.searchProduct. by rewrite He.
  - intros res Hres Hwf.
    rewrite (Poller.searchProduct_from_server fetch res) by done.
    unfold Client.from_server, Client.ok_status in Hwf. rewrite Hwf.
    split; intros Hst.
    + assert ((200 <=? Client.status res)%Z && (Client.status res <=? 299)%Z
              = true) as ->; [|done].
      apply andb_true_iff. split; apply Z.leb_le; lia.
    + destruct ((200 <=? Client.status res)%Z
                && (Client.status res <=? 299)%Z) eqn:Hr; [|done].
      exfalso. apply Hst. apply andb_true_iff in Hr as [H1 H2].
      apply Z.leb_le in H1, H2. lia.
Qed.

Lemma searchProduct_by_status_witness :
  Client.searchProduct (answers 503 (body_of "COMPLETED" None None))
    "yerba" "MAR_DEL_PLATA" "BUENOS_AIRES"
  = inl (JS.new_Error "Search failed").
Proof.
  apply (proj2 (searchProduct_by_status
                  (answers 503 (body_of "COMPLETED" None None))
                  "yerba" "MAR_DEL_PLATA" "BUENOS_AIRES")
           (Client.respond 503 (body_of "COMPLETED" None None))
           eq_refl eq_refl).
  simpl. lia.
Defined.

End PollerExtra.

(** ** More about the search history *)

Module HistoryExtra.
Import HomeScreen Spec.

Lemma trimStart_head (s : string) :
  JS.trimStart s = EmptyString
  \/ exists c t, JS.trimStart s = String c t /\ JS.isWhiteSpace c = false.
Proof.
  induction s as [|c s IH]; simpl; [by left|].
  destruct (JS.isWhiteSpace c) eqn:Hc; [done|]. right. by exists c, s.
Qed.

Lemma trimEnd_idem (s : string) : JS.trimEnd (JS.trimEnd s) = JS.trimEnd s.
Proof.
  induction s as [|c s IH]; [done|]. cbn [JS.trimEnd].
  destruct (JS.trimEnd s) as [|c' t] eqn:Ht.
  - destruct (JS.isWhiteSpace c) eqn:Hc; [done|]. simpl. by rewrite Hc.
  - cbn [JS.trimEnd]. cbn [JS.trimEnd] in IH.
    destruct (JS.trimEnd t) as [|c2 t2] eqn:Ht2.
    + destruct (JS.isWhiteSpace c'); [done | by rewrite IH].
    + by rewrite IH.
Qed.

Lemma trimEnd_head (c : ascii) (s : string) :
  JS.isWhiteSpace c = false -> exists t, JS.trimEnd (String c s) = String c t.
Proof.
  intros Hc. cbn [JS.trimEnd]. rewrite Hc.
  destruct (JS.trimEnd s); eauto.
Qed.

(** Trimming a trimmed string changes nothing. *)
Lemma trim_idem (s : string) : JS.trim (JS.trim s) = JS.trim s.
Proof.
  unfold JS.trim.
  destruct (trimStart_head s) as [-> | (c & t & -> & Hc)]; [done|].
  destruct (trimEnd_head c t Hc) as [u Hu].
  rewrite Hu. cbn [JS.trimStart]. rewrite Hc, <- Hu. apply trimEnd_idem.
Qed.

Lemma NoDup_map_take {A B} (g : A -> B) (n : nat) (l : list A) :
  NoDup (map g l) -> NoDup (map g (take n l)).
Proof.
  intros Hnd. rewrite <- firstn_map.
  eapply sublist_NoDup; [done | apply sublist_take].
Qed.

Lemma newHistory_ok (t : string) (h : list string) :
  JS.trim t = t -> t <> EmptyString ->
  history_ok h -> history_ok (newHistory t h).
Proof.
  intros Ht Hne (Hnd & _ & Hall). split; [|split].
  - rewrite History.newHistory_unfold. simpl. apply NoDup_cons. split.
    + intros Hin.
      apply list_elem_of_In, in_map_iff in Hin as [e [He Hin]].
      pose proof (History.newHistory_rest t h) as Hr.
      rewrite Forall_forall in Hr. apply list_elem_of_In in Hin.
      by apply (Hr e Hin).
    + by apply NoDup_map_take, DeriverExtra.NoDup_map_List_filter.
  - apply History.newHistory_length.
  - rewrite History.newHistory_unfold. constructor; [done|].
    apply Forall_take. rewrite Forall_forall in Hall.
    apply Forall_forall. intros e He.
    apply Deriver.elem_of_List_filter in He as [He _]. by apply Hall.
Qed.

Lemma sublist_List_filter {A} (f : A -> bool) (l : list A) :
  List.filter f l `sublist_of` l.
Proof.
  induction l as [|x l IH]; simpl; [done|].
  destruct (f x); [by apply sublist_skip | by apply sublist_cons].
Qed.

Lemma filter_ok (f : string -> bool) (h : list string) :
  history_ok h -> history_ok (List.filter f h).
Proof.
  intros (Hnd & Hlen & Hall). split; [|split].
  - by apply DeriverExtra.NoDup_map_List_filter.
  - pose proof (sublist_length _ _ (sublist_List_filter f h)). lia.
  - rewrite Forall_forall in Hall. apply Forall_forall. intros e He.
    apply Deriver.elem_of_List_filter in He as [He _]. by apply Hall.
Qed.

(** X14. The history keeps its shape under every operation on it: if no
    two entries agree up to case, there are at most 20 and each is a
    trimmed non-empty term, the same holds after recording any term,
    after deleting any entry and after clearing, whether or not the write
    to the device goes through. *)
Theorem history_ok_kept (h : list string) (d : Device) (term : string)
    (removeItem_rejects : bool) :
  history_ok h ->
  history_ok (fst (saveToHistory term (h, d)))
  /\ history_ok (fst (deleteHistoryItem term (h, d)))
  /\ history_ok (fst (clearAllHistory removeItem_rejects (h, d))).
Proof.
  intros Hok. split; [|split].
  - rewrite History.saveToHistory_fst. simpl.
    destruct (JS.truthy (JS.trim term)) eqn:Ht; [|done].
    apply newHistory_ok; [apply trim_idem | | done].
    by apply JSFacts.truthy_true.
  - unfold deleteHistoryItem, setItem_history.
    destruct (setItem_rejects d); simpl; by apply filter_ok.
  - simpl. split; [apply NoDup_nil_2 | split; [simpl; lia | constructor]].
Qed.

Lemma history_ok_kept_witness :
  history_ok ["leche"; "Yerba"]
  /\ history_ok (fst (saveToHistory " yerba " (["leche"; "Yerba"], device0))).
Proof.
  assert (history_ok ["leche"; "Yerba"]) as Hok.
  { split; [|split].
    - apply (bool_decide_unpack _). vm_compute. exact I.
    - simpl. lia.
    - repeat constructor; done. }
  split; [exact Hok|].
  exact (proj1 (history_ok_kept ["leche"; "Yerba"] device0 " yerba " false
                  Hok)).
Defined.

Lemma NoDup_map_inj_on {A B} (g : A -> B) (l : list A) (x y : A) :
  NoDup (map g l) -> x ∈ l -> y ∈ l -> g x = g y -> x = y.
Proof.
  induction l as [|z l IH]; intros Hnd Hx Hy Hg.
  - by apply elem_of_nil in Hx.
  - simpl in Hnd. apply NoDup_cons in Hnd as [Hz Hnd].
    assert (forall w, w ∈ l -> g w <> g z) as Hfresh.
    { intros w Hw He. apply Hz. rewrite <- He.
      apply list_elem_of_In, in_map_iff. exists w.
      split; [done | by apply list_elem_of_In]. }
    apply elem_of_cons in Hx as [->|Hx], Hy as [->|Hy]; [done | | |].
    + by destruct (Hfresh y Hy).
    + by destruct (Hfresh x Hx).
    + by apply IH.
Qed.

Lemma reorder_perm (term : string) (h : list string) :
  NoDup (map JS.toLowerCase h) -> term ∈ h ->
  h ≡ₚ term :: List.filter (other_term term) h.
Proof.
  induction h as [|e h IH]; intros Hnd Hin.
  - by apply elem_of_nil in Hin.
  - simpl in Hnd. apply NoDup_cons in Hnd as [He Hnd].
    assert (forall x, x ∈ h -> other_term e x = true) as Hothers.
    { intros x Hx. apply History.other_term_spec. intros Hs. apply He.
      unfold same_term in Hs. rewrite <- Hs.
      apply list_elem_of_In, in_map_iff. exists x.
      split; [done | by apply list_elem_of_In]. }
    destruct (decide (e = term)) as [->|Hne].
    + cbn [List.filter]. unfold other_term at 1.
      rewrite String.eqb_refl. simpl.
      rewrite History.filter_all; [done|]. by apply Forall_forall.
    + apply elem_of_cons in Hin as [->|Hin]; [done|].
      cbn [List.filter].
      assert (other_term term e = true) as ->.
      { apply History.other_term_spec. intros Hs.
        specialize (Hothers term Hin).
        apply History.other_term_spec in Hothers. apply Hothers.
        unfold same_term in *. done. }
      rewrite (IH Hnd Hin) at 1. apply perm_swap.
Qed.

(** X15. Searching again for a term of the history only reorders it:
    when the history has the shape above and holds the term, recording
    the term moves that entry to index 0 and leaves all the others in
    their order, none dropped. *)
Theorem saveToHistory_existing (h : list string) (d : Device)
    (term : string) :
  history_ok h -> term ∈ h ->
  fst (saveToHistory term (h, d))
  = term :: List.filter (fun e => negb (String.eqb e term)) h
  /\ fst (saveToHistory term (h, d)) ≡ₚ h.
Proof.
  intros (Hnd & Hlen & Hall) Hin.
  rewrite Forall_forall in Hall. destruct (Hall term Hin) as [Htrim Hne].
  rewrite History.saveToHistory_fst, Htrim. simpl.
  apply JSFacts.truthy_true in Hne. rewrite Hne.
  rewrite History.newHistory_unfold.
  pose proof (reorder_perm term h Hnd Hin) as Hp.
  assert (length (List.filter (other_term term) h) <= 19) as Hl.
  { apply Permutation_length in Hp. simpl in Hp. lia. }
  rewrite take_ge by done. split; [|done]. f_equal.
  apply filter_ext_in. intros e He. unfold other_term. f_equal.
  destruct (String.eqb_spec e term) as [->|Hd].
  - apply String.eqb_refl.
  - apply String.eqb_neq. intros Hs. apply Hd.
    apply list_elem_of_In in He.
    by apply (NoDup_map_inj_on JS.toLowerCase h).
Qed.

Lemma saveToHistory_existing_witness :
  fst (saveToHistory "Yerba" (["leche"; "Yerba"; "pan"], device0))
  = ["Yerba"; "leche"; "pan"].
Proof.
  assert (history_ok ["leche"; "Yerba"; "pan"]) as Hok.
  { split; [|split].
    - apply (bool_decide_unpack _). vm_compute. exact I.
    - simpl. lia.
    - repeat constructor; done. }
  assert ("Yerba" ∈ ["leche"; "Yerba"; "pan"]) as Hin by (right; left).
  exact (proj1 (saveToHistory_existing ["leche"; "Yerba"; "pan"] device0
                  "Yerba" Hok Hin)).
Defined.

(** X16. Deleting a history entry is exact where recording is up to
    case: the entries equal to the term go, every other entry, its case
    variants included, stays in place, and a term that is not in the
    history leaves the cell as it is. The list is written to the device
    when the write goes through; when it is rejected the device keeps the
    old list while the cell has already lost the entry. *)
Theorem deleteHistoryItem_exact (h : list string) (d : Device)
    (term : string) :
  let after := deleteHistoryItem term (h, d) in
  (term ∉ fst after)
  /\ (forall e, e <> term -> (e ∈ fst after <-> e ∈ h))
  /\ fst after `sublist_of` h
  /\ (term ∉ h -> fst after = h)
  /\ (setItem_rejects d = false ->
      search_history (snd after) = Text (fst after))
  /\ (setItem_rejects d = true -> snd after = d).
Proof.
  assert (fst (deleteHistoryItem term (h, d))
          = List.filter (fun e => negb (String.eqb e term)) h) as Hfst.
  { unfold deleteHistoryItem, setItem_history.
    by destruct (setItem_rejects d). }
  cbv zeta. rewrite Hfst. split; [|split; [|split; [|split; [|split]]]].
  - rewrite Boxes.elem_of_drop_box. tauto.
  - intros e He. rewrite Boxes.elem_of_drop_box. tauto.
  - apply sublist_List_filter.
  - intros Hout. apply History.filter_all, Forall_forall. intros e He.
    apply negb_true_iff, String.eqb_neq. by intros ->.
  - intros Hw. unfold deleteHistoryItem, setItem_history. by rewrite Hw.
  - intros Hw. unfold deleteHistoryItem, setItem_history. by rewrite Hw.
Qed.

Lemma deleteHistoryItem_exact_witness :
  ("yerba" ∉ ["Yerba"; "leche"])
  /\ fst (deleteHistoryItem "yerba" (["Yerba"; "leche"], device0))
     = ["Yerba"; "leche"].
Proof.
  assert ("yerba" ∉ ["Yerba"; "leche"]) as Hout.
  { intros H. repeat (apply elem_of_cons in H as [H|H]; [discriminate H|]).
    by apply elem_of_nil in H. }
  split; [exact Hout|].
  exact (proj1 (proj2 (proj2 (proj2
           (deleteHistoryItem_exact ["Yerba"; "leche"] device0 "yerba"))))
           Hout).
Defined.

(** X17. What is recorded or deleted survives a restart exactly when the
    write went through: loading from the device left by [saveToHistory]
    or [deleteHistoryItem] gives back the cell these left, whatever the
    cell holds at load time, provided reads and writes are not rejected;
    after a rejected write the load gives what it would have given
    before the operation. *)
Theorem history_restart (h cell : list string) (d : Device)
    (term : string) :
  (getItem_rejects d = false -> setItem_rejects d = false ->
     (blank term = false ->
      fst (loadSearchHistory (cell, snd (saveToHistory term (h, d))))
      = fst (saveToHistory term (h, d)))
     /\ fst (loadSearchHistory (cell, snd (deleteHistoryItem term (h, d))))
        = fst (deleteHistoryItem term (h, d)))
  /\ (setItem_rejects d = true ->
      loadSearchHistory (cell, snd (saveToHistory term (h, d)))
      = loadSearchHistory (cell, d)
      /\ loadSearchHistory (cell, snd (deleteHistoryItem term (h, d)))
         = loadSearchHistory (cell, d)).
Proof.
  split.
  - intros Hg Hw. split.
    + intros Hb. apply History.blank_false_trim, JSFacts.truthy_true in Hb.
      unfold saveToHistory, setItem_history, loadSearchHistory.
      rewrite Hb, Hw. simpl. by rewrite Hg.
    + unfold deleteHistoryItem, setItem_history, loadSearchHistory.
      rewrite Hw. simpl. by rewrite Hg.
  - intros Hw. split.
    + unfold saveToHistory, setItem_history. rewrite Hw.
      by destruct (negb (JS.truthy (JS.trim term))).
    + unfold deleteHistoryItem, setItem_history. by rewrite Hw.
Qed.

Lemma history_restart_witness :
  fst (loadSearchHistory ([], snd (saveToHistory " Yerba " (["leche"], device0))))
  = ["Yerba"; "leche"]
  /\ loadSearchHistory
       (["pan"], snd (saveToHistory " Yerba " (["leche"], device_full)))
     = loadSearchHistory (["pan"], device_full).
Proof.
  split.
  - exact (proj1 (proj1 (history_restart ["leche"] [] device0 " Yerba ")
                    eq_refl eq_refl) eq_refl).
  - exact (proj1 (proj2 (history_restart ["leche"] ["pan"] device_full
                           " Yerba ") eq_refl)).
Defined.

(** X18. What [loadSearchHistory] does on a device whose key is absent,
    holds a stored list of terms, or holds content that does not parse:
    when the read is rejected, the key is absent or [JSON.parse] throws,
    the cell and the device are left as they are; when the key holds a
    list, the cell becomes that list. So after a clear whose removal went
    through a load leaves the cell empty, while after a clear whose
    removal was rejected it brings the stored history back. *)
Theorem loadSearchHistory_outcomes (h : list string) (d : Device) :
  (getItem_rejects d = true \/ search_history d = Absent
   \/ search_history d = Corrupt ->
   loadSearchHistory (h, d) = (h, d))
  /\ (forall v, getItem_rejects d = false -> search_history d = Text v ->
        loadSearchHistory (h, d) = (v, d)
        /\ fst (loadSearchHistory (clearAllHistory true (h, d))) = v)
  /\ fst (loadSearchHistory (clearAllHistory false (h, d))) = [].
Proof.
  split; [|split].
  - unfold loadSearchHistory. intros [Hg | [Ha | Hc]].
    + by rewrite Hg.
    + rewrite Ha. by destruct (getItem_rejects d).
    + rewrite Hc. by destruct (getItem_rejects d).
  - intros v Hg Hv. unfold loadSearchHistory, clearAllHistory. simpl.
    by rewrite Hg, Hv.
  - unfold loadSearchHistory, clearAllHistory. simpl.
    by destruct (getItem_rejects d).
Qed.

Lemma loadSearchHistory_outcomes_witness :
  loadSearchHistory (["pan"], device0) = (["pan"], device0).
Proof.
  apply (proj1 (loadSearchHistory_outcomes ["pan"] device0)).
  right. by left.
Defined.

End HistoryExtra.

(** ** More about the saved lists *)

Module ListsExtra.
Import HomeScreen Spec.

(** X19. A list that was saved is the first one shown next time: when
    the name is not blank and the read and the write of the save go
    through, [loadSavedLists] on the device the save left opens the modal
    with the new list in front of the lists stored before, whatever the
    modal showed earlier, and raises no alert. *)
Theorem save_then_load (clock : Clock) (s : Lists) (v : ListsView)
    (d : Device) (prevLists : list SavedList) :
  blank (listName s) = false ->
  read_lists d = inr prevLists ->
  setItem_rejects d = false ->
  loadSavedLists (v, snd (saveListToDevice clock (s, d)))
  = ({| savedLists := newList clock s :: prevLists; isHistoryOpen := true;
        shown := shown v |},
     snd (saveListToDevice clock (s, d))).
Proof.
  intros Hb Hread Hw.
  apply History.blank_false_trim, JSFacts.truthy_true in Hb.
  assert (getItem_rejects d = false) as Hg.
  { unfold read_lists in Hread. by destruct (getItem_rejects d). }
  unfold saveListToDevice, setItem_lists. rewrite Hb, Hread, Hw. simpl.
  unfold loadSavedLists. simpl. by rewrite Hg.
Qed.

Lemma save_then_load_witness :
  savedLists
    (fst (loadSavedLists
            (view0,
             snd (saveListToDevice clock0
                    (modal_named "Compras Mes", device0)))))
  = [newList clock0 (modal_named "Compras Mes")].
Proof.
  by rewrite (save_then_load clock0 (modal_named "Compras Mes") view0
                device0 [] eq_refl eq_refl eq_refl).
Defined.

(** X20. What [loadSavedLists] does for each state of the device: a
    rejected read or a content that does not parse only raises the alert
    "No se pudieron cargar las listas", the modal stays as it was and the
    lists shown are kept; a stored array replaces the lists shown and
    opens the modal; and an absent key opens the modal on the lists shown
    before, which are not reset. The device is never changed. *)
Theorem loadSavedLists_outcomes (v : ListsView) (d : Device) :
  snd (loadSavedLists (v, d)) = d
  /\ (getItem_rejects d = true \/ my_lists d = Corrupt ->
      fst (loadSavedLists (v, d)) = load_failed v)
  /\ (getItem_rejects d = false ->
      (forall lists, my_lists d = Text lists ->
         fst (loadSavedLists (v, d))
         = {| savedLists := lists; isHistoryOpen := true;
              shown := shown v |})
      /\ (my_lists d = Absent ->
          fst (loadSavedLists (v, d))
          = {| savedLists := savedLists v; isHistoryOpen := true;
               shown := shown v |})).
Proof.
  unfold loadSavedLists. split; [|split].
  - by destruct (getItem_rejects d), (my_lists d).
  - intros [Hg | Hc].
    + by rewrite Hg.
    + rewrite Hc. by destruct (getItem_rejects d).
  - intros Hg. rewrite Hg. split.
    + intros lists Hl. by rewrite Hl.
    + intros Ha. by rewrite Ha.
Qed.

Lemma loadSavedLists_outcomes_witness :
  fst (loadSavedLists (view0, device_full))
  = {| savedLists := []; isHistoryOpen := true; shown := [] |}.
Proof.
  exact (proj2 (proj2 (proj2 (loadSavedLists_outcomes view0 device_full))
                  eq_refl) eq_refl).
Defined.

(** X21. Deleting a saved list: every list with that id leaves the lists
    shown and every other list stays, in order. When the modal shows what
    the device stores and the write goes through, the device stores the
    lists shown afterwards too; when the write is rejected the device is
    unchanged, so it still stores the deleted list. *)
Theorem deleteList_sync (i : string) (v : ListsView) (d : Device) :
  let after := deleteList i (v, d) in
  savedLists (fst after)
  = List.filter (fun l => negb (String.eqb (id l) i)) (savedLists v)
  /\ Forall (fun l => id l <> i) (savedLists (fst after))
  /\ (forall l, id l <> i ->
        (l ∈ savedLists (fst after) <-> l ∈ savedLists v))
  /\ (setItem_rejects d = false ->
      my_lists (snd after) = Text (savedLists (fst after)))
  /\ (setItem_rejects d = true -> snd after = d).
Proof.
  assert (savedLists (fst (deleteList i (v, d)))
          = List.filter (fun l => negb (String.eqb (id l) i)) (savedLists v))
    as Hfst.
  { unfold deleteList, setItem_lists. by destruct (setItem_rejects d). }
  cbv zeta. rewrite Hfst. split; [done|]. split; [|split; [|split]].
  - apply Forall_forall. intros l Hl.
    apply Deriver.elem_of_List_filter in Hl as [_ Hl].
    by apply negb_true_iff, String.eqb_neq in Hl.
  - intros l Hl. rewrite Deriver.elem_of_List_filter, negb_true_iff.
    rewrite String.eqb_neq. tauto.
  - intros Hw. unfold deleteList, setItem_lists. by rewrite Hw.
  - intros Hw. unfold deleteList, setItem_lists. by rewrite Hw.
Qed.

Lemma deleteList_sync_witness :
  my_lists
    (snd (deleteList "1700000000000"
            ({| savedLists := [newList clock0 (modal_named "Compras Mes")];
                isHistoryOpen := true; shown := [] |}, device0)))
  = Text [].
Proof.
  exact (proj1 (proj2 (proj2 (proj2
           (deleteList_sync "1700000000000"
              {| savedLists := [newList clock0 (modal_named "Compras Mes")];
                 isHistoryOpen := true; shown := [] |} device0))))
           eq_refl).
Defined.

(** X22. The stored lists keep their shape: if every list under the key
    has a name that is not blank and a total equal to the total of its
    items, the same holds after [saveListToDevice], whatever its outcome,
    and after [deleteList] from a modal whose lists have that shape. *)
Theorem saved_lists_ok_kept (clock : Clock) (s : Lists) (v : ListsView)
    (d : Device) (i : string) :
  (forall ls, my_lists d = Text ls -> Forall saved_ok ls) ->
  (forall ls, my_lists (snd (saveListToDevice clock (s, d))) = Text ls ->
     Forall saved_ok ls)
  /\ (Forall saved_ok (savedLists v) ->
      forall ls, my_lists (snd (deleteList i (v, d))) = Text ls ->
        Forall saved_ok ls).
Proof.
  intros Hd. split.
  - unfold saveListToDevice.
    destruct (JS.truthy (JS.trim (listName s))) eqn:Hn; simpl; [|done].
    assert (saved_ok (newList clock s)) as Hnew.
    { split; [|done]. simpl.
      by apply History.blank_false_trim, JSFacts.truthy_true. }
    unfold read_lists, setItem_lists.
    destruct (getItem_rejects d); [exact Hd|].
    destruct (my_lists d) as [|prev|] eqn:Hm;
      destruct (setItem_rejects d); simpl; intros ls Hls;
      first [ injection Hls as <-; constructor; [exact Hnew|];
              first [ by apply Hd | constructor ]
            | rewrite Hm in Hls;
              first [ discriminate Hls | injection Hls as <-; by apply Hd ] ].
  - intros Hv. unfold deleteList, setItem_lists.
    destruct (setItem_rejects d); simpl; [done|].
    intros ls [= <-]. rewrite Forall_forall in Hv. apply Forall_forall.
    intros l Hl. apply Deriver.elem_of_List_filter in Hl as [Hl _].
    by apply Hv.
Qed.

Lemma saved_lists_ok_kept_witness :
  Forall saved_ok [newList clock0 (modal_named "Compras Mes")].
Proof.
  apply (proj1 (saved_lists_ok_kept clock0 (modal_named "Compras Mes")
                  view0 device0 "1700000000000"
                  ltac:(intros ls H; discriminate H))).
  reflexivity.
Defined.

End ListsExtra.

(** ** More about the cart *)

Module CartExtra.
Import HomeScreen Spec.

Lemma not_in_urls (u : string) (l : list CartItem) (i : CartItem) :
  u ∉ map item_url l -> i ∈ l -> item_url i <> u.
Proof.
  intros Hout Hi He. apply Hout. rewrite <- He.
  apply list_elem_of_In, in_map_iff. exists i.
  split; [done | by apply list_elem_of_In].
Qed.

Lemma remove_absent (u : string) (l : list CartItem) :
  u ∉ map item_url l -> removeFromCart u l = l.
Proof.
  intros Hout. apply History.filter_all, Forall_forall. intros i Hi.
  apply negb_true_iff, String.eqb_neq. by apply (not_in_urls u l).
Qed.

Lemma bump_absent (u : string) (l : list CartItem) :
  u ∉ map item_url l -> map (bump u) l = l.
Proof.
  intros Hout. rewrite <- (map_id l) at 2. apply map_ext_in.
  intros i Hi. unfold bump.
  apply list_elem_of_In in Hi.
  apply (not_in_urls u l i Hout), String.eqb_neq in Hi. by rewrite Hi.
Qed.

(** X23. Removing from the cart: no item with the url is left, every
    other item stays, a cart with pairwise different urls keeps them so,
    and removing a product right after adding it to a cart that did not
    hold it gives back the cart as it was. *)
Theorem removeFromCart_spec (u : string) (prev : list CartItem)
    (product : Price) :
  (u ∉ map item_url (removeFromCart u prev))
  /\ (forall i, item_url i <> u -> (i ∈ removeFromCart u prev <-> i ∈ prev))
  /\ (NoDup (map item_url prev) ->
      NoDup (map item_url (removeFromCart u prev)))
  /\ (url product ∉ map item_url prev ->
      removeFromCart (url product) (addToCart product prev) = prev).
Proof.
  split; [|split; [|split]].
  - intros Hin. apply list_elem_of_In, in_map_iff in Hin as [i [Hu Hi]].
    apply filter_In in Hi as [_ Hi].
    by apply negb_true_iff, String.eqb_neq in Hi.
  - intros i Hi. unfold removeFromCart.
    rewrite Deriver.elem_of_List_filter, negb_true_iff, String.eqb_neq.
    tauto.
  - apply DeriverExtra.NoDup_map_List_filter.
  - intros Hout. rewrite Cart.addToCart_absent by done.
    unfold removeFromCart. rewrite List.filter_app. simpl.
    unfold item_url at 2. simpl. rewrite String.eqb_refl. simpl.
    rewrite app_nil_r. by apply remove_absent.
Qed.

Lemma removeFromCart_spec_witness :
  removeFromCart (url leche)
    (addToCart leche [{| listing := yerba; quantity := 3 |}])
  = [{| listing := yerba; quantity := 3 |}].
Proof.
  apply (removeFromCart_spec (url leche)
           [{| listing := yerba; quantity := 3 |}] leche).
  intros H. apply list_elem_of_singleton in H. discriminate H.
Defined.

(** X24. Quantities stay at 1 or more: when every item of the cart has a
    quantity of at least 1, so has every item after an add and after a
    removal. *)
Theorem quantities_positive (product : Price) (u : string)
    (prev : list CartItem) :
  Forall (fun i => (1 <= quantity i)%Z) prev ->
  Forall (fun i => (1 <= quantity i)%Z) (addToCart product prev)
  /\ Forall (fun i => (1 <= quantity i)%Z) (removeFromCart u prev).
Proof.
  intros Hq. split.
  - unfold addToCart. destruct (JS.find _ prev).
    + apply Forall_forall. intros i Hi.
      apply list_elem_of_In, in_map_iff in Hi as [j [<- Hj]].
      rewrite Forall_forall in Hq. apply list_elem_of_In in Hj.
      specialize (Hq j Hj). unfold bump.
      destruct (String.eqb (item_url j) (url product)); simpl; lia.
    + apply Forall_app. split; [done|]. constructor; [simpl; lia | done].
  - rewrite Forall_forall in Hq. apply Forall_forall. intros i Hi.
    apply Deriver.elem_of_List_filter in Hi as [Hi _]. by apply Hq.
Qed.

Lemma quantities_positive_witness :
  Forall (fun i => (1 <= quantity i)%Z)
    (addToCart yerba (addToCart yerba [])).
Proof.
  apply (quantities_positive yerba "none" (addToCart yerba [])).
  repeat constructor. simpl. lia.
Defined.

Lemma total_acc (l : list CartItem) (a : Z) :
  fold_left (fun sum item => (sum + price (listing item) * quantity item)%Z)
    l a
  = (a + totalCartPrice l)%Z.
Proof.
  unfold totalCartPrice. revert a.
  induction l as [|i l IH]; intros a; simpl; [lia|].
  rewrite IH, (IH (0 + _)%Z). lia.
Qed.

Lemma total_cons (i : CartItem) (l : list CartItem) :
  totalCartPrice (i :: l) = (line i + totalCartPrice l)%Z.
Proof.
  unfold totalCartPrice at 1. simpl. rewrite total_acc. unfold line. lia.
Qed.

Lemma total_app (l1 l2 : list CartItem) :
  totalCartPrice (l1 ++ l2) = (totalCartPrice l1 + totalCartPrice l2)%Z.
Proof.
  induction l1 as [|i l1 IH]; simpl; [unfold totalCartPrice at 2; simpl; lia|].
  rewrite !total_cons, IH. lia.
Qed.

Lemma total_bump (u : string) (prev : list CartItem) (existing : CartItem) :
  NoDup (map item_url prev) -> existing ∈ prev -> item_url existing = u ->
  totalCartPrice (map (bump u) prev)
  = (totalCartPrice prev + price (listing existing))%Z.
Proof.
  induction prev as [|i prev IH]; intros Hnd Hin Hu.
  - by apply elem_of_nil in Hin.
  - simpl in Hnd. apply NoDup_cons in Hnd as [Hi Hnd].
    cbn [map]. rewrite !total_cons.
    apply elem_of_cons in Hin as [->|Hin].
    + rewrite Hu in Hi. rewrite (bump_absent u prev Hi).
      unfold bump. apply String.eqb_eq in Hu. rewrite Hu.
      unfold line. simpl. lia.
    + assert (item_url i <> u) as Hne.
      { intros He. apply Hi. rewrite He, <- Hu.
        apply list_elem_of_In, in_map_iff. exists existing.
        split; [done | by apply list_elem_of_In]. }
      rewrite (IH Hnd Hin Hu). unfold bump.
      apply String.eqb_neq in Hne. rewrite Hne. lia.
Qed.

Lemma total_remove (prev : list CartItem) (existing : CartItem) :
  NoDup (map item_url prev) -> existing ∈ prev ->
  totalCartPrice (removeFromCart (item_url existing) prev)
  = (totalCartPrice prev - line existing)%Z.
Proof.
  induction prev as [|i prev IH]; intros Hnd Hin.
  - by apply elem_of_nil in Hin.
  - simpl in Hnd. apply NoDup_cons in Hnd as [Hi Hnd].
    rewrite total_cons. unfold removeFromCart. cbn [List.filter].
    apply elem_of_cons in Hin as [->|Hin].
    + rewrite String.eqb_refl. simpl.
      fold (removeFromCart (item_url i) prev).
      rewrite (remove_absent _ _ Hi). lia.
    + assert (item_url i <> item_url existing) as Hne.
      { intros He. apply Hi. rewrite He.
        apply list_elem_of_In, in_map_iff. exists existing.
        split; [done | by apply list_elem_of_In]. }
      apply String.eqb_neq in Hne. rewrite Hne. simpl.
      fold (removeFromCart (item_url existing) prev).
      rewrite total_cons, (IH Hnd Hin). lia.
Qed.

(** X25. How the total follows the cart, for prices and quantities
    that are integers and as long as every product and every running sum
    of [totalCartPrice] stays an integer that a number holds exactly
    (there the sums of the code are the sums of integers). In a cart with
    pairwise different urls: adding a product whose url is new adds its
    price; adding one whose url is in the cart adds the price of the item
    already there, which is the price at the time it was first added and
    not the price of the product handed in; removing an item takes away
    its price times its quantity. *)
Theorem total_follows_cart (product : Price) (prev : list CartItem) :
  exact_total prev ->
  (url product ∉ map item_url prev ->
   exact_total (addToCart product prev) ->
   totalCartPrice (addToCart product prev)
   = (totalCartPrice prev + price product)%Z)
  /\ (forall existing,
        NoDup (map item_url prev) -> existing ∈ prev ->
        (item_url existing = url product ->
         exact_total (addToCart product prev) ->
         totalCartPrice (addToCart product prev)
         = (totalCartPrice prev + price (listing existing))%Z)
        /\ (exact_total (removeFromCart (item_url existing) prev) ->
            totalCartPrice (removeFromCart (item_url existing) prev)
            = (totalCartPrice prev
               - price (listing existing) * quantity existing)%Z)).
Proof.
  intros _. split.
  - intros Hout _. rewrite Cart.addToCart_absent, total_app by done.
    rewrite total_cons. change (totalCartPrice []) with 0%Z.
    unfold line. simpl. lia.
  - intros existing Hnd Hin. split.
    + intros Hu _. rewrite Cart.addToCart_present.
      * by apply total_bump.
      * rewrite <- Hu. apply list_elem_of_In, in_map_iff. exists existing.
        split; [done | by apply list_elem_of_In].
    + intros _. by apply total_remove.
Qed.

Lemma exact_total_small (cart : list CartItem) :
  Forall (fun i => (0 <= price (listing i) <= 1000000)%Z
                   /\ (0 <= quantity i <= 1000)%Z) cart ->
  length cart <= 1000 ->
  exact_total cart.
Proof.
  intros Hall Hlen. split.
  - eapply Forall_impl; [exact Hall|]. intros i [Hp Hq].
    unfold safe_integer. lia.
  - assert (forall sum l,
              Forall (fun i => (0 <= price (listing i) <= 1000000)%Z
                               /\ (0 <= quantity i <= 1000)%Z) l ->
              forall z, z ∈ running sum l ->
                (sum <= z <= sum + 1000000000 * Z.of_nat (length l))%Z
                \/ (0 <= z <= 1000000000)%Z) as Hrun.
    { intros sum l Hl. revert sum.
      induction Hl as [|i l [Hp Hq] _ IH]; intros sum z Hz.
      - by apply elem_of_nil in Hz.
      - assert (0 <= line i <= 1000000000)%Z as Hline
          by (unfold line; nia).
        cbn [running] in Hz. cbn [length].
        apply elem_of_cons in Hz as [->|Hz]; [by right|].
        apply elem_of_cons in Hz as [->|Hz]; [left; lia|].
        destruct (IH _ _ Hz) as [H|H]; [left; lia | by right]. }
    apply Forall_forall. intros z Hz.
    unfold safe_integer.
    destruct (Hrun 0%Z cart Hall z Hz) as [H|H]; lia.
Qed.

Lemma total_follows_cart_witness :
  exact_total [{| listing := yerba; quantity := 1 |}]
  /\ totalCartPrice
       (addToCart (listing_of "Coto" "Yerba Playadito 1kg" "Playadito" 9999
                     "https://coto/yerba")
          [{| listing := yerba; quantity := 1 |}])
     = (3500 + 3500)%Z.
Proof.
  assert (exact_total [{| listing := yerba; quantity := 1 |}]) as He.
  { apply exact_total_small; [|simpl; lia].
    repeat constructor; simpl; lia. }
  assert (exact_total
            (addToCart (listing_of "Coto" "Yerba Playadito 1kg" "Playadito"
                          9999 "https://coto/yerba")
               [{| listing := yerba; quantity := 1 |}])) as He2.
  { apply exact_total_small; [|simpl; lia].
    repeat constructor; simpl; lia. }
  assert (NoDup (map item_url [{| listing := yerba; quantity := 1 |}]))
    as Hnd by apply NoDup_singleton.
  assert ({| listing := yerba; quantity := 1 |}
          ∈ [{| listing := yerba; quantity := 1 |}]) as Hin by left.
  split; [exact He|].
  exact (proj1 (proj2 (total_follows_cart
                         (listing_of "Coto" "Yerba Playadito 1kg"
                            "Playadito" 9999 "https://coto/yerba")
                         [{| listing := yerba; quantity := 1 |}] He)
                  _ Hnd Hin) eq_refl He2).
Defined.

End CartExtra.

(** ** The cart grouped by store *)

Module CartGroups.
Import HomeScreen Spec.

Section Groups.
Variable inherited : string -> bool.

Lemma fold_group_error (cart : list CartItem) (e : JS.Error) :
  fold_left (group_step inherited) cart (inl e) = inl e.
Proof. induction cart as [|i cart IH]; [done | exact IH]. Qed.

Lemma in_store_cons_same (i : CartItem) (cart : list CartItem) :
  in_store (store (listing i)) (i :: cart)
  = i :: in_store (store (listing i)) cart.
Proof. unfold in_store. simpl. by rewrite String.eqb_refl. Qed.

Lemma in_store_cons_other (st : string) (i : CartItem)
    (cart : list CartItem) :
  store (listing i) <> st -> in_store st (i :: cart) = in_store st cart.
Proof.
  intros Hne. unfold in_store. simpl.
  apply String.eqb_neq in Hne. by rewrite Hne.
Qed.

(** The groups after folding [cart] into the object [m0]. *)
Lemma group_fold (cart : list CartItem) (m0 : gmap string (list CartItem)) :
  (forall k, is_Some (m0 !! k) -> inherited k = false) ->
  if existsb (fun i => inherited (store (listing i))) cart
  then fold_left (group_step inherited) cart (inr m0) = inl push_error
  else exists m,
         fold_left (group_step inherited) cart (inr m0) = inr m
         /\ forall st,
              m !! st
              = match m0 !! st with
                | Some g => Some (g ++ in_store st cart)
                | None => match in_store st cart with
                          | [] => None
                          | g => Some g
                          end
                end.
Proof.
  revert m0. induction cart as [|i cart IH]; intros m0 Hm0.
  - simpl. exists m0. split; [done|]. intros st.
    destruct (m0 !! st); [by rewrite app_nil_r | done].
  - cbn [existsb fold_left group_step].
    assert (forall g, inherited (store (listing i)) = false ->
              forall k', is_Some (<[store (listing i):=g]> m0 !! k') ->
                         inherited k' = false)
      as Hins.
    { intros g Hk k' Hsome.
      destruct (decide (store (listing i) = k')) as [<-|Hne]; [done|].
      rewrite lookup_insert_ne in Hsome by done. by apply Hm0. }
    destruct (m0 !! store (listing i)) as [g|] eqn:Hk.
    + assert (inherited (store (listing i)) = false) as Hik
        by (apply Hm0; by rewrite Hk).
      rewrite Hik. simpl.
      specialize (IH _ (Hins (g ++ [i]) Hik)).
      destruct (existsb _ cart); [exact IH|].
      destruct IH as [m [Hm Hlook]]. exists m. split; [exact Hm|].
      intros st. rewrite Hlook.
      destruct (decide (store (listing i) = st)) as [Heq|Hne].
      * subst st. rewrite lookup_insert_eq, Hk.
        by rewrite ?in_store_cons_same, ?String.eqb_refl, <- app_assoc.
      * rewrite lookup_insert_ne by done.
        rewrite ?(in_store_cons_other st i cart Hne).
        apply String.eqb_neq in Hne. by rewrite ?Hne.
    + destruct (inherited (store (listing i))) eqn:Hik; simpl.
      * apply fold_group_error.
      * specialize (IH _ (Hins [i] eq_refl)).
        destruct (existsb _ cart); [exact IH|].
        destruct IH as [m [Hm Hlook]]. exists m. split; [exact Hm|].
        intros st. rewrite Hlook.
        destruct (decide (store (listing i) = st)) as [Heq|Hne].
        -- subst st. rewrite lookup_insert_eq, Hk.
           by rewrite ?in_store_cons_same, ?String.eqb_refl.
        -- rewrite lookup_insert_ne by done.
           rewrite ?(in_store_cons_other st i cart Hne).
           apply String.eqb_neq in Hne. by rewrite ?Hne.
Qed.

(** X26. The cart grouped by store. When no store name of the cart is a
    name that objects inherit, the grouping has, under each store of the
    cart, exactly the items of that store in cart order, and nothing
    under any other name. When some item's store is such a name
    ("constructor", "toString", ...) the reducer throws. *)
Theorem groupedCart_groups (cart : list CartItem) :
  ((forall i, i ∈ cart -> inherited (store (listing i)) = false) ->
   exists m,
     groupedCart inherited cart = inr m
     /\ forall st,
          m !! st = match in_store st cart with
                    | [] => None
                    | g => Some g
                    end)
  /\ ((exists i, i ∈ cart /\ inherited (store (listing i)) = true) ->
      groupedCart inherited cart = inl push_error).
Proof.
  pose proof (group_fold cart ∅) as H.
  assert (forall k : string,
            is_Some ((∅ : gmap string (list CartItem)) !! k) ->
            inherited k = false) as Hempty.
  { intros k [g Hg]. by rewrite lookup_empty in Hg. }
  specialize (H Hempty). unfold groupedCart. split.
  - intros Hall.
    assert (existsb (fun i => inherited (store (listing i))) cart = false)
      as He.
    { destruct (existsb _ cart) eqn:Hx; [|done].
      apply existsb_exists in Hx as [i [Hi Hx]].
      apply list_elem_of_In in Hi. by rewrite (Hall i Hi) in Hx. }
    rewrite He in H. destruct H as [m [Hm Hlook]].
    exists m. split; [exact Hm|]. intros st.
    by rewrite Hlook, lookup_empty.
  - intros [i [Hi Hx]].
    assert (existsb (fun i => inherited (store (listing i))) cart = true)
      as He.
    { apply existsb_exists. exists i. split; [by apply list_elem_of_In|done]. }
    by rewrite He in H.
Qed.

End Groups.

Lemma groupedCart_groups_witness :
  exists m,
    groupedCart inherits
      [{| listing := yerba; quantity := 2 |};
       {| listing := leche; quantity := 1 |}] = inr m
    /\ m !! "Coto" = Some [{| listing := yerba; quantity := 2 |}].
Proof.
  destruct (proj1 (groupedCart_groups inherits
                     [{| listing := yerba; quantity := 2 |};
                      {| listing := leche; quantity := 1 |}]))
    as [m [Hm Hlook]].
  - intros i Hi.
    repeat (apply elem_of_cons in Hi as [->|Hi]; [reflexivity|]).
    by apply elem_of_nil in Hi.
  - exists m. split; [exact Hm|]. by rewrite Hlook.
Defined.

End CartGroups.

(** ** Starting a search *)

Module SearchStart.
Import HomeScreen Spec.

Lemma pollSearch_fresh
    (fetch : Client.Request -> Client.Fetched SearchResponse)
    (query city province : string) (s : Search) :
  error s = None -> data s = [] ->
  let s' := pollSearch fetch query city province s in
  (error s' = None \/ loading s' = false)
  /\ (data s' = [] \/ loading s' = false)
  /\ timers s `prefix_of` timers s'.
Proof.
  intros He Hd. unfold pollSearch.
  destruct (Client.searchProduct fetch query city province) as [err|r].
  - destruct (is_rate_limit err); simpl.
    + split; [by left|]. split; [by left|]. by apply prefix_app_r.
    + split; [by right|]. split; [by right | done].
  - destruct (String.eqb (status r) "COMPLETED"); simpl.
    + split; [by right|]. split; [by right | done].
    + destruct (String.eqb (status r) "STARTED"
                || String.eqb (status r) "PROCESSING"); simpl.
      * split; [by left|]. split; [by left|]. by apply prefix_app_r.
      * split; [by left|]. split; [by left | done].
Qed.

(** X27. What pressing Buscar does. With a term (the override, or the
    text typed when there is none or it is empty) of fewer than 2 code
    units nothing at all changes. Otherwise the term is recorded in the
    history as [saveToHistory] does, [hasSearched] is set, and after the
    first poll an error or a non-empty result set can only be there with
    loading off, so neither the error nor the results of an earlier
    search are shown as those of the running one; the timers pending
    from an earlier search are not cancelled. *)
Theorem handleSearchWithTerm_effects
    (fetch : Client.Request -> Client.Fetched SearchResponse)
    (overrideTerm : option string) (sc : Screen) :
  let term := JS.or_default overrideTerm (query sc) in
  let sc' := handleSearchWithTerm fetch overrideTerm sc in
  (String.length term < 2 -> sc' = sc)
  /\ (2 <= String.length term ->
      hasSearched sc' = true
      /\ query sc' = query sc
      /\ (searchHistory sc', device sc')
         = saveToHistory term (searchHistory sc, device sc)
      /\ (error (search sc') = None \/ loading (search sc') = false)
      /\ (data (search sc') = [] \/ loading (search sc') = false)
      /\ timers (search sc) `prefix_of` timers (search sc')).
Proof.
  cbv zeta. unfold handleSearchWithTerm.
  destruct (String.length (JS.or_default overrideTerm (query sc)) <? 2)%nat
    eqn:Hlen.
  - apply Nat.ltb_lt in Hlen. split; [done | lia].
  - apply Nat.ltb_ge in Hlen. split; [lia|]. intros _.
    destruct (saveToHistory _ (searchHistory sc, device sc)) as [h d].
    cbn [hasSearched query searchHistory device search].
    split; [done|]. split; [done|]. split; [done|].
    match goal with
    | |- context [pollSearch fetch ?q ?c ?p ?s] =>
        destruct (pollSearch_fresh fetch q c p s eq_refl eq_refl)
          as (H1 & H2 & H3)
    end.
    split; [exact H1|]. split; [exact H2 | exact H3].
Qed.

Lemma handleSearchWithTerm_effects_witness :
  handleSearchWithTerm (answers 200 (body_of "COMPLETED" None None))
    (Some "y") (screen0 "yerba")
  = screen0 "yerba"
  /\ searchHistory
       (handleSearchWithTerm (answers 200 (body_of "COMPLETED" None None))
          None (screen0 "yerba"))
     = ["yerba"; "leche"].
Proof.
  split.
  - apply (proj1 (handleSearchWithTerm_effects
                    (answers 200 (body_of "COMPLETED" None None))
                    (Some "y") (screen0 "yerba"))).
    simpl. lia.
  - pose proof (proj2 (handleSearchWithTerm_effects
                         (answers 200 (body_of "COMPLETED" None None))
                         None (screen0 "yerba"))) as H.
    simpl in H. specialize (H ltac:(lia)).
    destruct H as (_ & _ & H & _). exact (f_equal fst H).
Defined.

Lemma or_default_long (a q : string) :
  2 <= String.length a -> JS.or_default (Some a) q = a.
Proof. destruct a; simpl; [lia | done]. Qed.

Lemma search_after
    (fetch : Client.Request -> Client.Fetched SearchResponse)
    (a : string) (sc : Screen) :
  2 <= String.length a ->
  let city := JS.or_default (city <$> location sc) "MAR_DEL_PLATA" in
  let province := JS.or_default (province <$> location sc) "BUENOS_AIRES" in
  search (handleSearchWithTerm fetch (Some a) sc)
  = pollSearch fetch a city province
      (setData []
         (setStatusMessage (Some ("Buscando en " +:+ city +:+ "..."))
            (setError None (setLoading true (search sc)))))
  /\ location (handleSearchWithTerm fetch (Some a) sc) = location sc.
Proof.
  intros Ha. cbv zeta. unfold handleSearchWithTerm.
  rewrite (or_default_long a (query sc) Ha).
  assert ((String.length a <? 2)%nat = false) as -> by by apply Nat.ltb_ge.
  by destruct (saveToHistory a (searchHistory sc, device sc)).
Qed.

(** X29. A new search does not cancel the retry of the one before, and
    the retry does not know it is stale: after a search for [a] that is
    still in progress and a search for [b] that completed, the timer for
    [a] is still pending, and when it fires on a COMPLETED response the
    results for [a] replace the results for [b] that were on screen. *)
Theorem stale_retry_overwrites (a b : string) (body : SearchResponse)
    (resA resB : list Price) (sc : Screen) :
  2 <= String.length a -> 2 <= String.length b ->
  in_progress body -> timers (search sc) = [] ->
  let city := JS.or_default (city <$> location sc) "MAR_DEL_PLATA" in
  let province := JS.or_default (province <$> location sc) "BUENOS_AIRES" in
  let sc1 := handleSearchWithTerm (answers 200 (inr body)) (Some a) sc in
  let sc2 :=
    handleSearchWithTerm
      (answers 200 (body_of "COMPLETED" None (Some resB))) (Some b) sc1 in
  data (search sc2) = uniqueResults resB
  /\ loading (search sc2) = false
  /\ timers (search sc2)
     = [{| callback := {| Client.q := a; Client.userCity := city;
                          Client.userProvince := province |};
           delay := 4000 |}]
  /\ data (pollSearch
             (answers 200 (body_of "COMPLETED" None (Some resA)))
             a city province (search sc2))
     = uniqueResults resA.
Proof.
  intros Ha Hb Hbody Ht. cbv zeta.
  destruct (search_after (answers 200 (inr body)) a sc Ha) as [Hs1 Hl1].
  destruct (search_after
              (answers 200 (body_of "COMPLETED" None (Some resB))) b
              (handleSearchWithTerm (answers 200 (inr body)) (Some a) sc) Hb)
    as [Hs2 _].
  cbv zeta in Hs1, Hs2. rewrite Hs2, Hl1, Hs1.
  unfold pollSearch, answers. simpl.
  destruct Hbody as [-> | ->]; simpl; by rewrite Ht.
Qed.

Lemma stale_retry_overwrites_witness :
  data
    (pollSearch (answers 200 (body_of "COMPLETED" None (Some [yerba])))
       "yerba" "MAR_DEL_PLATA" "BUENOS_AIRES"
       (search
          (handleSearchWithTerm
             (answers 200 (body_of "COMPLETED" None (Some [leche])))
             (Some "leche")
             (handleSearchWithTerm
                (answers 200 (body_of "PROCESSING" None None))
                (Some "yerba") (screen0 EmptyString)))))
  = [yerba].
Proof.
  apply (stale_retry_overwrites "yerba" "leche"
           {| status := "PROCESSING"; message := None; results := None |}
           [yerba] [leche] (screen0 EmptyString)).
  - simpl. lia.
  - simpl. lia.
  - by right.
  - reflexivity.
Defined.

End SearchStart.

(** ** The filter of the earlier screen *)

Module LegacyFacts.
Import HomeScreen Spec.

(** X28. The filter of the earlier screen compares the selected brands
    with the store of a listing and has no store test: a listing is shown
    iff it is in the result set, no brand is selected or its store is
    among the selected brands, and the item test passes; the selected
    stores play no part. *)
Theorem legacy_filtered_iff (data : list Price) (f : Filters) (p : Price) :
  (p ∈ Legacy.filtered data f
   <-> p ∈ data
       /\ (selectedBrands f = [] \/ store p ∈ selectedBrands f)
       /\ (selectedItems f = []
           \/ exists i, i ∈ selectedItems f
                /\ exists a b, JS.toLowerCase (product_name p)
                               = a +:+ JS.toLowerCase i +:+ b))
  /\ forall stores,
       Legacy.filtered data
         {| selectedBrands := selectedBrands f; selectedStores := stores;
            selectedItems := selectedItems f; sortAsc := sortAsc f |}
       = Legacy.filtered data f.
Proof.
  split; [|done].
  unfold Legacy.filtered. rewrite Deriver.sort_perm.
  rewrite Deriver.elem_of_List_filter, andb_true_iff.
  rewrite Deriver.itemOk_spec. unfold Legacy.brandOk.
  rewrite orb_true_iff, JSFacts.length_zero, JSFacts.array_includes_spec.
  tauto.
Qed.

End LegacyFacts.
